(** * Amortized posterior inference on the linear Gaussian example

    A shallow embedding of [docs/tutorials/01_gaussian_amortized.ipynb]:
    the tensors and the random generator of torch that the notebook's
    [simulator] uses, the simulator itself, the calls into [sbi] the
    notebook makes, and the code cells as actions on the kernel's globals.

    The simulator is embedded twice.  For what the notebook does with
    tensors as a whole (shapes, the order of the calls, the generator, the
    kernel's globals) an entry is a real number, as in the data model of
    the specification ("real-valued vector").  For the value of an entry
    the simulator is embedded on float32 tensors, the dtype of every tensor
    the notebook hands to it, with the rounding of each operation. *)

From Stdlib Require Import Reals Lra Lia List ZArith SpecFloat.
From stdpp Require Import gmap strings.

Set Warnings "-abstract-large-number".

(** ** Outcomes of a call: a value or a Python exception, with the state
    the call left behind. *)

Inductive exn : Type :=
  | RuntimeError     (* torch: operands that cannot be broadcast *)
  | AssertionError   (* sbi: a failed input check *)
  | NameError        (* a global that is not bound yet *)
  | TypeError.       (* a global bound to a value of another kind *)

Inductive outcome (S A : Type) : Type :=
  | Returned (a : A) (s : S)
  | Raised (e : exn) (s : S).
Arguments Returned {S A} a s.
Arguments Raised {S A} e s.

Definition SE (S A : Type) : Type := S -> outcome S A.

Definition ret {S A} (a : A) : SE S A := fun s => Returned a s.

Definition raise {S A} (e : exn) : SE S A := fun s => Raised e s.

Definition bind {S A B} (m : SE S A) (k : A -> SE S B) : SE S B :=
  fun s => match m s with
           | Returned a s' => k a s'
           | Raised e s' => Raised e s'
           end.

Notation "x <- m ;; k" := (bind m (fun x => k))
  (at level 100, m at next level, right associativity).
Notation "m ;;; k" := (bind m (fun _ => k))
  (at level 100, right associativity).

Definition final_state {S A} (o : outcome S A) : S :=
  match o with Returned _ s | Raised _ s => s end.

(** ** Tensors of torch: a shape and the entries in row-major order. *)

Record tensor : Type := Tensor { shape : list nat; data : list R }.

Definition numel (s : list nat) : nat := foldr Nat.mul 1 s.

Definition wf (t : tensor) : Prop := length (data t) = numel (shape t).

(** [torch.ones(n)] *)
Definition ones (n : nat) : tensor := Tensor [n] (replicate n 1%R).

(** [c * t], [t * c] and [t + c] with a Python number [c]: the number is
    applied to every entry, the shape is that of [t]. *)
Definition scalar_mul (c : R) (t : tensor) : tensor :=
  Tensor (shape t) (map (fun v => c * v)%R (data t)).

Definition mul_scalar (t : tensor) (c : R) : tensor :=
  Tensor (shape t) (map (fun v => v * c)%R (data t)).

Definition add_scalar (t : tensor) (c : R) : tensor :=
  Tensor (shape t) (map (fun v => v + c)%R (data t)).

(** *** Broadcasting of two tensor operands.

    torch aligns the two shapes at their last dimension, reads a missing
    leading dimension as 1, and accepts a pair of sizes when they are equal
    or one of them is 1. *)

Definition pad_shape (r : nat) (s : list nat) : list nat :=
  replicate (r - length s) 1 ++ s.

Definition broadcast_dim (d1 d2 : nat) : option nat :=
  if d1 =? d2 then Some d1
  else if d1 =? 1 then Some d2
  else if d2 =? 1 then Some d1
  else None.

Fixpoint broadcast_dims (s1 s2 : list nat) : option (list nat) :=
  match s1, s2 with
  | [], [] => Some []
  | d1 :: r1, d2 :: r2 =>
      match broadcast_dim d1 d2, broadcast_dims r1 r2 with
      | Some d, Some r => Some (d :: r)
      | _, _ => None
      end
  | _, _ => None
  end.

Definition broadcast_shapes (s1 s2 : list nat) : option (list nat) :=
  let r := length s1 `max` length s2 in
  broadcast_dims (pad_shape r s1) (pad_shape r s2).

(** The [count] consecutive blocks of [size] entries of [d]. *)
Definition chunks {A} (size count : nat) (d : list A) : list (list A) :=
  map (fun i => take size (drop (i * size) d)) (seq 0 count).

(** The entries of a tensor of shape [from] seen at shape [to] (of the same
    rank): a dimension of size 1 is repeated, another one is kept. *)
Fixpoint expand {A} (from to : list nat) (d : list A) : list A :=
  match from, to with
  | f :: from', t :: to' =>
      if f =? t
      then concat (map (expand from' to') (chunks (numel from') f d))
      else concat (replicate t (expand from' to' d))
  | _, _ => d
  end.

Definition expand_to (s : list nat) (t : tensor) : list R :=
  expand (pad_shape (length s) (shape t)) s (data t).

(** [a + b] on two tensors. *)
Definition pointwise (op : R -> R -> R) (a b : tensor) : option tensor :=
  match broadcast_shapes (shape a) (shape b) with
  | Some s => Some (Tensor s (zip_with op (expand_to s a) (expand_to s b)))
  | None => None
  end.

Definition tensor_add := pointwise Rplus.

(** An operation of torch inside a call: it returns, or raises
    [RuntimeError] and leaves the state alone. *)
Definition torch_op {S A} (r : option A) : SE S A :=
  match r with Some a => ret a | None => raise RuntimeError end.

(** ** The default random generator of torch.

    The state of the generator is the sequence of the values it hands out
    from here on; a value is read as a standard normal variate by [randn]
    and as a uniform variate on [0, 1) by [rand].  Handing out [n] values
    moves the generator [n] places on. *)

Record variate : Type := Variate { std_normal : R; std_uniform : R }.

Definition generator : Type := nat -> variate.

Definition advance (n : nat) (g : generator) : generator :=
  fun k => g (n + k).

Definition normals (g : generator) (n : nat) : list R :=
  map (fun k => std_normal (g k)) (seq 0 n).

(** [rand] draws from [0, 1). *)
Definition uniform_ok (g : generator) : Prop :=
  forall k, (0 <= std_uniform (g k) < 1)%R.

Definition Gen (A : Type) : Type := SE generator A.

(** [torch.randn_like(t)]: a tensor of the shape of [t], filled in storage
    order with standard normal draws. *)
Definition randn_like (t : tensor) : Gen tensor :=
  fun g => let n := numel (shape t) in
           Returned (Tensor (shape t) (normals g n)) (advance n g).


(** ** The simulator (cell 5 of the notebook)

<<
def simulator(theta):
    # linear gaussian
    return theta + 1.0 + torch.randn_like(theta) * 0.1
>> *)
Definition simulator (theta : tensor) : Gen tensor :=
  let shifted := add_scalar theta 1.0 in
  eps <- randn_like theta ;;
  let noise := mul_scalar eps 0.1 in
  torch_op (tensor_add shifted noise).



(** A simulator that returns on every input. *)
Definition total (f : tensor -> Gen tensor) : Prop :=
  forall theta g, exists x g', f theta g = Returned x g'.

(** ** The simulator on float32 tensors

    The tensors of the notebook have torch's default dtype, float32:
    every entry is an IEEE 754 binary32 number and every operation rounds
    its exact result to the nearest such number, ties to even.  The
    operations are those of the standard library's specification of
    floating-point arithmetic, at 24 bits of mantissa and exponent bound
    128. *)

Definition f32 : Type := spec_float.

Definition f32_add : f32 -> f32 -> f32 := SFadd 24 128.
Definition f32_sub : f32 -> f32 -> f32 := SFsub 24 128.
Definition f32_mul : f32 -> f32 -> f32 := SFmul 24 128.

(** A Python number is a binary64 float; an operation with a float32
    tensor first rounds it to float32. *)
Definition f32_of_float (x : spec_float) : f32 :=
  match x with
  | S754_finite s m e => binary_round 24 128 s m e
  | _ => x
  end.

(** The literals [1.0] and [0.1] of the simulator, as binary64 floats. *)
Definition py_1_0 : spec_float := S754_finite false 4503599627370496 (-52).
Definition py_0_1 : spec_float := S754_finite false 7205759403792794 (-56).

(** The real number a float stands for ([m * 2^e] with its sign; zero for
    the zeros), and the floats that are numbers in canonical form. *)
Definition bpow (e : Z) : R := powerRZ 2 e.

Definition F2R (m e : Z) : R := (IZR m * bpow e)%R.

Definition f32_real (x : f32) : R :=
  match x with
  | S754_finite s m e => F2R (cond_Zopp s (Z.pos m)) e
  | _ => 0%R
  end.

Definition f32_finite (x : f32) : bool :=
  match x with
  | S754_finite _ _ _ | S754_zero _ => true
  | _ => false
  end.

Definition f32_number (x : f32) : Prop :=
  f32_finite x = true /\ valid_binary 24 128 x = true.

Record tensor_f32 : Type :=
  TensorF32 { shape_f32 : list nat; data_f32 : list f32 }.

Definition wf_f32 (t : tensor_f32) : Prop :=
  length (data_f32 t) = numel (shape_f32 t).

(** [t + c] and [t * c] with a Python number [c]. *)
Definition add_scalar_f32 (t : tensor_f32) (c : spec_float) : tensor_f32 :=
  TensorF32 (shape_f32 t) (map (fun v => f32_add v (f32_of_float c)) (data_f32 t)).

Definition mul_scalar_f32 (t : tensor_f32) (c : spec_float) : tensor_f32 :=
  TensorF32 (shape_f32 t) (map (fun v => f32_mul v (f32_of_float c)) (data_f32 t)).

Definition expand_to_f32 (s : list nat) (t : tensor_f32) : list f32 :=
  expand (pad_shape (length s) (shape_f32 t)) s (data_f32 t).

(** [a + b] and [a - b] on two float32 tensors, with broadcasting. *)
Definition pointwise_f32 (op : f32 -> f32 -> f32) (a b : tensor_f32)
  : option tensor_f32 :=
  match broadcast_shapes (shape_f32 a) (shape_f32 b) with
  | Some s =>
      Some (TensorF32 s (zip_with op (expand_to_f32 s a) (expand_to_f32 s b)))
  | None => None
  end.

Definition tensor_add_f32 := pointwise_f32 f32_add.
Definition tensor_sub_f32 := pointwise_f32 f32_sub.

(** The generator, for float32 draws.  What a call hands out may depend on
    how many values it asks for (torch fills long tensors by another
    routine than short ones), so the state of the generator is given by
    the values of every future request: [g (n1 :: ... :: nk :: []) i] is
    value [i] of the request for [nk] values made after requests for
    [n1], ..., of the sizes before it. *)
Definition generator_f32 : Type := list nat -> nat -> f32.

Definition request (g : generator_f32) (n : nat) : list f32 :=
  map (g [n]) (seq 0 n).

Definition after_request (g : generator_f32) (n : nat) : generator_f32 :=
  fun later => g (n :: later).

Definition randn_like_f32 (t : tensor_f32) : SE generator_f32 tensor_f32 :=
  fun g => let n := numel (shape_f32 t) in
           Returned (TensorF32 (shape_f32 t) (request g n)) (after_request g n).

(** The simulator of cell 5 on a float32 tensor:
    [theta + 1.0 + torch.randn_like(theta) * 0.1]. *)
Definition simulator_f32 (theta : tensor_f32) : SE generator_f32 tensor_f32 :=
  let shifted := add_scalar_f32 theta py_1_0 in
  eps <- randn_like_f32 theta ;;
  let noise := mul_scalar_f32 eps py_0_1 in
  torch_op (tensor_add_f32 shifted noise).

(** One entry of the simulator's result, from the entry [t] of [theta] and
    the draw [e]: [t + 1.0 + e * 0.1], each operation rounded. *)
Definition f32_entry (t e : f32) : f32 :=
  f32_add (f32_add t (f32_of_float py_1_0)) (f32_mul e (f32_of_float py_0_1)).

(** A shape that broadcasting can turn into [to]: every dimension is that
    of [to], or 1. *)
Definition expands (from to : list nat) : Prop :=
  Forall2 (fun f t => f = t \/ f = 1) from to.

(** ** The prior: [utils.BoxUniform(low, high)] *)

Record box_uniform : Type := BoxUniform { low : tensor; high : tensor }.

(** Modelled from the spec: [BoxUniform.sample] of [sbi.utils], which is not
    part of the notebook.  "Sampling returns a batch of theta vectors of the
    requested count; each coordinate independently uniform" between the
    bounds of its dimension: entry [j] of vector [i] is the affine image of
    a uniform draw of its own, [low_j + (high_j - low_j) * u]. *)
Definition prior_sample (p : box_uniform) (n : nat) : Gen tensor :=
  fun g =>
    let d := length (data (low p)) in
    let entry k :=
      let lo := nth (k mod d) (data (low p)) 0%R in
      let hi := nth (k mod d) (data (high p)) 0%R in
      (lo + (hi - lo) * std_uniform (g k))%R in
    Returned (Tensor [n; d] (map entry (seq 0 (n * d)))) (advance (n * d) g).

(** Modelled from the spec: [check_sbi_inputs] of [sbi.utils], which is not
    part of the notebook.  It is the "consistency check confirming the
    simulator's output is compatible with the prior's declared parameter
    space": one theta is drawn from the prior, the simulator is run on it,
    and the output must be a batch of as many vectors as were given;
    "failure there is expected to raise immediately". *)
Definition check_sbi_inputs (f : tensor -> Gen tensor) (p : box_uniform)
  : Gen unit :=
  theta <- prior_sample p 1 ;;
  x <- f theta ;;
  if decide (head (shape x) = head (shape theta)) then ret tt
  else raise AssertionError.

(** Modelled from the spec: [process_prior] and [process_simulator] of
    [sbi.utils], which are not part of the notebook.  The consistency check
    is "the only validation", so both hand back what they are given;
    [process_prior] also reports the dimensionality of the prior and that
    it returns tensors. *)
Definition process_prior (p : box_uniform) : box_uniform * nat * bool :=
  (p, length (data (low p)), false).

Definition process_simulator (f : tensor -> Gen tensor) (p : box_uniform)
    (prior_returns_numpy : bool) : tensor -> Gen tensor := f.

(** Modelled from the spec: the neural posterior estimation of [sbi], which
    is not part of the notebook and which the specification leaves opaque:
    "given a training set of (theta, x) pairs, fit a model approximating
    p(theta | x); expose a sampling operation for arbitrary new x".  Both use
    the random generator. *)
Class npe : Type := Npe {
  estimator : Type;
  fit : tensor -> tensor -> generator -> estimator * generator;
  draw : estimator -> nat -> tensor -> generator -> tensor * generator
}.

(** The prior of the notebook, as cell 5 builds it. *)
Definition num_dim : nat := 3.

Definition prior : box_uniform :=
  BoxUniform (scalar_mul (-2) (ones num_dim)) (scalar_mul 2 (ones num_dim)).

Section Notebook.
Context `{L : npe}.

(** What a global of the notebook can be bound to. *)
Inductive value : Type :=
  | VInt (n : nat)
  | VBool (b : bool)
  | VTensor (t : tensor)
  | VPrior (p : box_uniform)
  | VSimulator (f : tensor -> Gen tensor)
  | VInference (p : box_uniform) (sims : option (tensor * tensor))
  | VEstimator (e : estimator)
  | VPosterior (p : box_uniform) (e : estimator)
  | VFigure.

(** What the calls into [sbi] did, oldest first. *)
Inductive event : Type :=
  | Simulated (theta x : tensor)   (* a training set was generated *)
  | Trained (theta x : tensor) (e : estimator)  (* a model was fitted on it *)
  | Sampled (e : estimator) (n : nat) (x : tensor).  (* posterior draws *)

Definition is_training (ev : event) : bool :=
  match ev with Sampled _ _ _ => false | _ => true end.

(** The state of the Python kernel: its globals, the generator of torch and
    the record of the calls into [sbi]. *)
Record kernel : Type :=
  Kernel { globals : gmap string value; rng : generator; trace : list event }.

Definition M (A : Type) : Type := SE kernel A.

Definition lift {A} (m : Gen A) : M A :=
  fun k => match m (rng k) with
           | Returned a g => Returned a (Kernel (globals k) g (trace k))
           | Raised e g => Raised e (Kernel (globals k) g (trace k))
           end.

Definition lift_total {A} (m : generator -> A * generator) : M A :=
  fun k => let (a, g) := m (rng k) in Returned a (Kernel (globals k) g (trace k)).

Definition log (ev : event) : M unit :=
  fun k => Returned tt (Kernel (globals k) (rng k) (trace k ++ [ev])).

Definition assign (name : string) (v : value) : M unit :=
  fun k => Returned tt (Kernel (<[name := v]> (globals k)) (rng k) (trace k)).

Definition lookup_global (name : string) : M value :=
  fun k => match globals k !! name with
           | Some v => Returned v k
           | None => Raised NameError k
           end.

Definition get_int (name : string) : M nat :=
  v <- lookup_global name ;;
  match v with VInt n => ret n | _ => raise TypeError end.

Definition get_bool (name : string) : M bool :=
  v <- lookup_global name ;;
  match v with VBool b => ret b | _ => raise TypeError end.

Definition get_tensor (name : string) : M tensor :=
  v <- lookup_global name ;;
  match v with VTensor t => ret t | _ => raise TypeError end.

Definition get_prior (name : string) : M box_uniform :=
  v <- lookup_global name ;;
  match v with VPrior p => ret p | _ => raise TypeError end.

Definition get_simulator (name : string) : M (tensor -> Gen tensor) :=
  v <- lookup_global name ;;
  match v with VSimulator f => ret f | _ => raise TypeError end.

Definition get_inference (name : string)
  : M (box_uniform * option (tensor * tensor)) :=
  v <- lookup_global name ;;
  match v with VInference p sims => ret (p, sims) | _ => raise TypeError end.

Definition get_estimator (name : string) : M estimator :=
  v <- lookup_global name ;;
  match v with VEstimator e => ret e | _ => raise TypeError end.

Definition get_posterior (name : string) : M (box_uniform * estimator) :=
  v <- lookup_global name ;;
  match v with VPosterior p e => ret (p, e) | _ => raise TypeError end.

(** Modelled from the spec: [simulate_for_sbi] of [sbi.inference], which is
    not part of the notebook.  "Generate training data: sample parameters
    from prior, run simulator, collect (parameter, simulation) pairs." *)
Definition simulate_for_sbi (f : tensor -> Gen tensor) (proposal : box_uniform)
    (num_simulations : nat) : M (tensor * tensor) :=
  theta <- lift (prior_sample proposal num_simulations) ;;
  x <- lift (f theta) ;;
  log (Simulated theta x) ;;;
  ret (theta, x).

(** Modelled from the spec: [NPE], [append_simulations], [train] and
    [build_posterior] of [sbi.inference], which are not part of the
    notebook.  The inference object keeps the prior and the training set it
    was given; training fits the model on that set. *)
Definition NPE (p : box_uniform) : value := VInference p None.

Definition append_simulations (inference : box_uniform * option (tensor * tensor))
    (theta x : tensor) : value :=
  VInference (fst inference) (Some (theta, x)).

Definition train (inference : box_uniform * option (tensor * tensor))
  : M estimator :=
  match snd inference with
  | Some (theta, x) =>
      e <- lift_total (fit theta x) ;;
      log (Trained theta x e) ;;;
      ret e
  | None => raise AssertionError
  end.

Definition build_posterior (inference : box_uniform * option (tensor * tensor))
    (e : estimator) : value :=
  VPosterior (fst inference) e.

(** Modelled from the spec: [posterior.sample] of [sbi], which is not part
    of the notebook.  The posterior "supports a draw N samples conditioned
    on x operation" and is "stateless with respect to which x is queried":
    the call reads the fitted model and uses the generator. *)
Definition posterior_sample (posterior : box_uniform * estimator) (n : nat)
    (x : tensor) : M tensor :=
  s <- lift_total (draw (snd posterior) n x) ;;
  log (Sampled (snd posterior) n x) ;;;
  ret s.

(** [analysis.pairplot] draws a figure of its arguments. *)
Definition pairplot (samples points : tensor) : value := VFigure.

(** ** The code cells

    A cell is the sequence of its statements; a statement reads the globals
    it names and binds its targets.  [cell5_with f] is cell 5 with [f] as
    the body of [def simulator]. *)

Definition num_simulations : nat := 2000.
Definition num_posterior_samples : nat := 10000.

(**
<<
num_dim = 3
prior = utils.BoxUniform(low=-2 * torch.ones(num_dim), high=2 * torch.ones(num_dim))
def simulator(theta): ...
prior, num_parameters, prior_returns_numpy = process_prior(prior)
simulator = process_simulator(simulator, prior, prior_returns_numpy)
check_sbi_inputs(simulator, prior)
>> *)
Definition cell5_with (f : tensor -> Gen tensor) : M unit :=
  assign "num_dim" (VInt 3) ;;;
  num_dim <- get_int "num_dim" ;;
  assign "prior"
    (VPrior (BoxUniform (scalar_mul (-2) (ones num_dim))
                        (scalar_mul 2 (ones num_dim)))) ;;;
  assign "simulator" (VSimulator f) ;;;
  p <- get_prior "prior" ;;
  let '(p', num_parameters, prior_returns_numpy) := process_prior p in
  assign "prior" (VPrior p') ;;;
  assign "num_parameters" (VInt num_parameters) ;;;
  assign "prior_returns_numpy" (VBool prior_returns_numpy) ;;;
  f0 <- get_simulator "simulator" ;;
  p <- get_prior "prior" ;;
  b <- get_bool "prior_returns_numpy" ;;
  assign "simulator" (VSimulator (process_simulator f0 p b)) ;;;
  f1 <- get_simulator "simulator" ;;
  p <- get_prior "prior" ;;
  lift (check_sbi_inputs f1 p).

(**
<<
inference = NPE(prior=prior)
theta, x = simulate_for_sbi(simulator, proposal=prior, num_simulations=2000)
inference = inference.append_simulations(theta, x)
density_estimator = inference.train()
posterior = inference.build_posterior(density_estimator)
>> *)
Definition cell6 : M unit :=
  p <- get_prior "prior" ;;
  assign "inference" (NPE p) ;;;
  f <- get_simulator "simulator" ;;
  p <- get_prior "prior" ;;
  sims <- simulate_for_sbi f p num_simulations ;;
  assign "theta" (VTensor (fst sims)) ;;;
  assign "x" (VTensor (snd sims)) ;;;
  inference <- get_inference "inference" ;;
  theta <- get_tensor "theta" ;;
  x <- get_tensor "x" ;;
  assign "inference" (append_simulations inference theta x) ;;;
  inference <- get_inference "inference" ;;
  e <- train inference ;;
  assign "density_estimator" (VEstimator e) ;;;
  inference <- get_inference "inference" ;;
  e <- get_estimator "density_estimator" ;;
  assign "posterior" (build_posterior inference e).

(**
<<
theta_1 = prior.sample((1,))
x_obs_1 = simulator(theta_1)
theta_2 = prior.sample((1,))
x_obs_2 = simulator(theta_2)
>> *)
Definition cell9 : M unit :=
  p <- get_prior "prior" ;;
  t1 <- lift (prior_sample p 1) ;;
  assign "theta_1" (VTensor t1) ;;;
  f <- get_simulator "simulator" ;;
  t1 <- get_tensor "theta_1" ;;
  x1 <- lift (f t1) ;;
  assign "x_obs_1" (VTensor x1) ;;;
  p <- get_prior "prior" ;;
  t2 <- lift (prior_sample p 1) ;;
  assign "theta_2" (VTensor t2) ;;;
  f <- get_simulator "simulator" ;;
  t2 <- get_tensor "theta_2" ;;
  x2 <- lift (f t2) ;;
  assign "x_obs_2" (VTensor x2).

(**
<<
posterior_samples_1 = posterior.sample((10000,), x=x_obs_1)
_ = analysis.pairplot(posterior_samples_1, ..., points=theta_1)
>> *)
Definition cell11 : M unit :=
  posterior <- get_posterior "posterior" ;;
  x_obs <- get_tensor "x_obs_1" ;;
  s <- posterior_sample posterior num_posterior_samples x_obs ;;
  assign "posterior_samples_1" (VTensor s) ;;;
  s <- get_tensor "posterior_samples_1" ;;
  points <- get_tensor "theta_1" ;;
  assign "_" (pairplot s points).

(**
<<
posterior_samples_2 = posterior.sample((10000,), x=x_obs_2)
_ = analysis.pairplot(posterior_samples_2, ..., points=theta_2)
>> *)
Definition cell14 : M unit :=
  posterior <- get_posterior "posterior" ;;
  x_obs <- get_tensor "x_obs_2" ;;
  s <- posterior_sample posterior num_posterior_samples x_obs ;;
  assign "posterior_samples_2" (VTensor s) ;;;
  s <- get_tensor "posterior_samples_2" ;;
  points <- get_tensor "theta_2" ;;
  assign "_" (pairplot s points).

(** The cells run from top to bottom; an exception ends the run. *)
Definition notebook_with (f : tensor -> Gen tensor) : M unit :=
  cell5_with f ;;; cell6 ;;; cell9 ;;; cell11 ;;; cell14.

Definition notebook : M unit := notebook_with simulator.

(** A fresh kernel: no global is bound and no call has been made. *)
Definition fresh (g : generator) : kernel := Kernel ∅ g [].


(** The globals after cell 5, cell 6, cell 9 and a sampling cell. *)
Definition globals5 (f : tensor -> Gen tensor) : gmap string value :=
  <["simulator" := VSimulator f]>
    (<["prior_returns_numpy" := VBool false]>
       (<["num_parameters" := VInt 3]>
          (<["prior" := VPrior prior]>
             (<["simulator" := VSimulator f]>
                (<["prior" := VPrior prior]>
                   (<["num_dim" := VInt 3]> ∅)))))).

Definition globals6 (G : gmap string value) (p : box_uniform)
    (theta x : tensor) (e : estimator) : gmap string value :=
  <["posterior" := VPosterior p e]>
    (<["density_estimator" := VEstimator e]>
       (<["inference" := VInference p (Some (theta, x))]>
          (<["x" := VTensor x]>
             (<["theta" := VTensor theta]>
                (<["inference" := VInference p None]> G))))).

Definition globals9 (G : gmap string value) (t1 x1 t2 x2 : tensor)
  : gmap string value :=
  <["x_obs_2" := VTensor x2]>
    (<["theta_2" := VTensor t2]>
       (<["x_obs_1" := VTensor x1]>
          (<["theta_1" := VTensor t1]> G))).

Definition globals_sampled (G : gmap string value) (name : string) (s : tensor)
  : gmap string value :=
  <["_" := VFigure]> (<[name := VTensor s]> G).

(** The values a run binds, and the generator after each call that uses it. *)
Record session : Type := Session {
  s_checked : generator;
  s_theta : tensor;      s_theta_rng : generator;
  s_x : tensor;          s_x_rng : generator;
  s_estimator : estimator; s_fit_rng : generator;
  s_theta_1 : tensor;    s_theta_1_rng : generator;
  s_x_obs_1 : tensor;    s_x_obs_1_rng : generator;
  s_theta_2 : tensor;    s_theta_2_rng : generator;
  s_x_obs_2 : tensor;    s_x_obs_2_rng : generator;
  s_samples_1 : tensor;  s_samples_1_rng : generator;
  s_samples_2 : tensor;  s_samples_2_rng : generator
}.

Definition session_of (f : tensor -> Gen tensor) (g : generator) (s : session)
  : Prop :=
  check_sbi_inputs f prior g = Returned tt (s_checked s) /\
  prior_sample prior num_simulations (s_checked s)
    = Returned (s_theta s) (s_theta_rng s) /\
  f (s_theta s) (s_theta_rng s) = Returned (s_x s) (s_x_rng s) /\
  fit (s_theta s) (s_x s) (s_x_rng s) = (s_estimator s, s_fit_rng s) /\
  prior_sample prior 1 (s_fit_rng s) = Returned (s_theta_1 s) (s_theta_1_rng s) /\
  f (s_theta_1 s) (s_theta_1_rng s) = Returned (s_x_obs_1 s) (s_x_obs_1_rng s) /\
  prior_sample prior 1 (s_x_obs_1_rng s)
    = Returned (s_theta_2 s) (s_theta_2_rng s) /\
  f (s_theta_2 s) (s_theta_2_rng s) = Returned (s_x_obs_2 s) (s_x_obs_2_rng s) /\
  draw (s_estimator s) num_posterior_samples (s_x_obs_1 s) (s_x_obs_2_rng s)
    = (s_samples_1 s, s_samples_1_rng s) /\
  draw (s_estimator s) num_posterior_samples (s_x_obs_2 s) (s_samples_1_rng s)
    = (s_samples_2 s, s_samples_2_rng s).

(** The kernel after each cell of the run. *)
Definition after5 (f : tensor -> Gen tensor) (s : session) : kernel :=
  Kernel (globals5 f) (s_checked s) [].

Definition after6 (f : tensor -> Gen tensor) (s : session) : kernel :=
  Kernel (globals6 (globals5 f) prior (s_theta s) (s_x s) (s_estimator s))
    (s_fit_rng s)
    [Simulated (s_theta s) (s_x s);
     Trained (s_theta s) (s_x s) (s_estimator s)].

Definition after9 (f : tensor -> Gen tensor) (s : session) : kernel :=
  Kernel
    (globals9 (globals (after6 f s))
       (s_theta_1 s) (s_x_obs_1 s) (s_theta_2 s) (s_x_obs_2 s))
    (s_x_obs_2_rng s) (trace (after6 f s)).

Definition after11 (f : tensor -> Gen tensor) (s : session) : kernel :=
  Kernel
    (globals_sampled (globals (after9 f s)) "posterior_samples_1" (s_samples_1 s))
    (s_samples_1_rng s)
    (trace (after9 f s)
       ++ [Sampled (s_estimator s) num_posterior_samples (s_x_obs_1 s)]).

Definition after14 (f : tensor -> Gen tensor) (s : session) : kernel :=
  Kernel
    (globals_sampled (globals (after11 f s)) "posterior_samples_2" (s_samples_2 s))
    (s_samples_2_rng s)
    (trace (after11 f s)
       ++ [Sampled (s_estimator s) num_posterior_samples (s_x_obs_2 s)]).

(** The events of a trace that generate a training set or train a model. *)
Definition training_events (tr : list event) : list event :=
  List.filter is_training tr.

(** [K'] differs from [K] at most in the globals [names], in the generator
    and in posterior draws recorded in the trace. *)
Definition preserves (names : list string) (K K' : kernel) : Prop :=
  (forall n, n ∉ names -> globals K' !! n = globals K !! n) /\
  training_events (trace K') = training_events (trace K).

Definition frame {A} (names : list string) (m : M A) : Prop :=
  forall K, preserves names K (final_state (m K)).

End Notebook.


(** ** Inputs for worked examples *)

(** A generator whose [k]-th value is [k] as a normal draw and one half as
    a uniform draw, and one that hands out the same value for ever. *)
Definition ramp : generator := fun k => Variate (INR k) (/ 2).

Definition steady : generator := fun _ => Variate 1 (/ 2).

(** A batch of two parameter vectors inside the box of the prior. *)
Definition theta_pair : tensor :=
  Tensor [2; 3] [0; 0.5; -1; 2; -2; 1.5]%R.

(** A simulator that hands back the first vector of the batch alone, and a
    stand-in for the estimator that answers with the observation moved
    back by one. *)
Definition unbatched (theta : tensor) : Gen tensor :=
  let s := tail (shape theta) in
  ret (Tensor s (take (numel s) (data theta))).

Definition recall : npe :=
  Npe unit (fun _ _ g => (tt, g)) (fun _ _ x g => (add_scalar x (-1), g)).

(** An empty batch of 3-vectors, and a kernel in which only the posterior
    of the stand-in estimator is bound. *)
Definition empty_batch : tensor := Tensor [0; 3] [].

Definition only_posterior : kernel (L := recall) :=
  Kernel (<["posterior" := @VPosterior recall prior tt]> ∅) steady [].

(** [K'] differs from [K] at most in the globals [names] and in the
    generator: every other global and the whole trace are as in [K]. *)
Definition untouched `{L : npe} (names : list string) (K K' : kernel) : Prop :=
  (forall n, n ∉ names -> globals K' !! n = globals K !! n) /\
  trace K' = trace K.

Definition keeps `{L : npe} {A} (names : list string) (m : M A) : Prop :=
  forall K, untouched names K (final_state (m K)).

(** Float32 inputs: the numbers -2, 0, 0.5, 1, 1.5 and 4, a tensor of one
    entry, a batch of one vector of three equal entries, and a generator
    that hands out the same draw for ever. *)
Definition f32_minus_two : f32 := S754_finite true 8388608 (-22).
Definition f32_zero : f32 := S754_zero false.
Definition f32_half : f32 := S754_finite false 8388608 (-24).
Definition f32_one : f32 := S754_finite false 8388608 (-23).
Definition f32_three_halves : f32 := S754_finite false 12582912 (-23).
Definition f32_four : f32 := S754_finite false 8388608 (-21).

Definition single (v : f32) : tensor_f32 := TensorF32 [1] [v].

Definition triple (v : f32) : tensor_f32 := TensorF32 [1; 3] [v; v; v].

Definition steady_f32 (e : f32) : generator_f32 := fun _ _ => e.

(** The float32 number 2^24, next to which 1.1 is lost to rounding. *)
Definition f32_two_24 : f32 := S754_finite false 8388608 1.

(** * Properties *)

(** ** The monad *)

Lemma bind_returned {S A B} (m : SE S A) (k : A -> SE S B) s a s' :
  m s = Returned a s' -> bind m k s = k a s'.
Proof. intros H. unfold bind. now rewrite H. Qed.

Lemma bind_raised {S A B} (m : SE S A) (k : A -> SE S B) s e s' :
  m s = Raised e s' -> bind m k s = Raised e s'.
Proof. intros H. unfold bind. now rewrite H. Qed.

(** ** Broadcasting a shape with itself *)

Lemma pad_shape_self s : pad_shape (length s) s = s.
Proof. unfold pad_shape. now rewrite Nat.sub_diag. Qed.

Lemma broadcast_dims_refl s : broadcast_dims s s = Some s.
Proof.
  induction s as [|d s IH]; [reflexivity|].
  simpl. unfold broadcast_dim. now rewrite Nat.eqb_refl, IH.
Qed.

Lemma broadcast_shapes_refl s : broadcast_shapes s s = Some s.
Proof.
  unfold broadcast_shapes. rewrite Nat.max_id, pad_shape_self.
  apply broadcast_dims_refl.
Qed.

Lemma chunks_S {A} size count (d : list A) :
  chunks size (S count) d = take size d :: chunks size count (drop size d).
Proof.
  unfold chunks. simpl. f_equal.
  rewrite <- seq_shift, map_map. apply map_ext. intros i.
  now rewrite drop_drop.
Qed.

Lemma concat_chunks {A} size count (d : list A) :
  length d = count * size -> concat (chunks size count d) = d.
Proof.
  revert d. induction count as [|c IH]; intros d Hd.
  - destruct d; [reflexivity | discriminate].
  - rewrite chunks_S. simpl. rewrite IH, take_drop; [reflexivity|].
    rewrite length_drop. simpl in Hd. lia.
Qed.

Lemma chunks_length {A} size count (d : list A) :
  length d = count * size ->
  Forall (fun c => length c = size) (chunks size count d).
Proof.
  revert d. induction count as [|c IH]; intros d Hd.
  - constructor.
  - rewrite chunks_S. simpl in Hd. constructor.
    + rewrite length_take. lia.
    + apply IH. rewrite length_drop. lia.
Qed.

Lemma expand_refl {A} s (d : list A) :
  length d = numel s -> expand s s d = d.
Proof.
  revert d. induction s as [|f s IH]; intros d Hd; [reflexivity|].
  simpl. rewrite Nat.eqb_refl. simpl in Hd.
  rewrite <- (concat_chunks (numel s) f d) at 2 by exact Hd.
  f_equal. rewrite <- (map_id (chunks (numel s) f d)) at 2.
  apply Forall_fmap_ext_1. eapply Forall_impl; [apply chunks_length, Hd|].
  intros c Hc. now apply IH.
Qed.

Lemma pointwise_same_shape op a b :
  wf a -> wf b -> shape b = shape a ->
  pointwise op a b = Some (Tensor (shape a) (zip_with op (data a) (data b))).
Proof.
  unfold wf, pointwise, expand_to. intros Ha Hb Hs.
  rewrite Hs, broadcast_shapes_refl, !pad_shape_self.
  rewrite !expand_refl by congruence. reflexivity.
Qed.

(** ** The simulator *)

Lemma length_normals g n : length (normals g n) = n.
Proof. unfold normals. now rewrite length_map, length_seq. Qed.

Lemma zip_with_map_map {A B} (op : R -> R -> R) (f : A -> R) (h : B -> R) l k :
  zip_with op (map f l) (map h k) = zip_with (fun a b => op (f a) (h b)) l k.
Proof.
  revert k. induction l as [|a l IH]; intros [|b k]; simpl; try reflexivity.
  now rewrite IH.
Qed.

(** The tensor the simulator computes, in the order the code computes it. *)
Lemma simulator_returns theta g :
  wf theta ->
  simulator theta g =
    Returned
      (Tensor (shape theta)
         (zip_with (fun t e => t + 1.0 + e * 0.1)%R (data theta)
            (normals g (numel (shape theta)))))
      (advance (numel (shape theta)) g).
Proof.
  intros Hwf. unfold simulator, bind, randn_like, tensor_add.
  rewrite pointwise_same_shape.
  - simpl. now rewrite zip_with_map_map.
  - unfold wf. simpl. now rewrite length_map.
  - unfold wf. simpl. now rewrite length_map, length_normals.
  - reflexivity.
Qed.

Lemma simulator_shape theta g :
  wf theta ->
  exists x g',
    simulator theta g = Returned x g' /\
    shape x = shape theta /\
    length (data x) = length (data theta).
Proof.
  intros Hwf. eexists _, _. split; [now apply simulator_returns|].
  split; [reflexivity|]. cbn [data].
  rewrite length_zip_with, length_normals. unfold wf in Hwf. lia.
Qed.

(** C3.  For every batch of theta vectors the simulator returns a batch of
    the same shape: as many vectors, each of as many coordinates. *)
Theorem simulator_preserves_shape theta g :
  wf theta ->
  exists x g',
    simulator theta g = Returned x g' /\
    shape x = shape theta /\
    length (data x) = length (data theta) /\
    wf x.
Proof.
  intros Hwf.
  destruct (simulator_shape theta g Hwf) as (x & g' & Hx & Hsh & Hlen).
  exists x, g'. split; [exact Hx|]. split; [exact Hsh|]. split; [exact Hlen|].
  unfold wf in *. now rewrite Hlen, Hsh.
Qed.

Lemma simulator_preserves_shape_witness :
  wf theta_pair /\
  exists x g',
    simulator theta_pair ramp = Returned x g' /\
    shape x = [2; 3] /\ length (data x) = 6 /\ wf x.
Proof.
  assert (Hwf : wf theta_pair) by reflexivity.
  split; [exact Hwf|].
  exact (simulator_preserves_shape theta_pair ramp Hwf).
Defined.



(** ** The prior *)

Lemma prior_dimension : length (data (low prior)) = 3.
Proof. reflexivity. Qed.

Lemma prior_bounds j :
  j < 3 ->
  nth j (data (low prior)) 0%R = (-2)%R /\ nth j (data (high prior)) 0%R = 2%R.
Proof.
  intros Hj. destruct j as [|[|[|j]]]; simpl; try lia; split; lra.
Qed.

Lemma prior_sample_entry n g k :
  k < n * 3 ->
  exists theta g',
    prior_sample prior n g = Returned theta g' /\
    data theta !! k = Some (-2 + 4 * std_uniform (g k))%R.
Proof.
  intros Hk. eexists _, _. split; [reflexivity|].
  cbn [data]. rewrite prior_dimension.
  change (map ?f ?l) with (f <$> l).
  rewrite list_lookup_fmap, lookup_seq_lt by exact Hk.
  cbn [fmap option_fmap option_map Nat.add].
  destruct (prior_bounds (k mod 3)) as [-> ->].
  { apply Nat.mod_upper_bound. discriminate. }
  f_equal. lra.
Qed.

(** C4.  For every requested count n, sampling the prior returns a batch of
    exactly n vectors of dimension 3; every coordinate lies in [-2, 2] and is
    the image -2 + 4 u of a uniform draw u of its own, so that it falls in
    an interval [a, b] exactly when u falls in an interval a quarter as
    long: the coordinates are independent and uniform on [-2, 2]. *)
Theorem prior_sample_is_uniform_batch n g :
  uniform_ok g ->
  exists theta g',
    prior_sample prior n g = Returned theta g' /\
    shape theta = [n; 3] /\
    length (data theta) = n * 3 /\
    forall k, k < n * 3 ->
      exists v,
        data theta !! k = Some v /\
        v = (-2 + 4 * std_uniform (g k))%R /\
        (-2 <= v <= 2)%R /\
        forall a b,
          (a <= v <= b)%R <->
          ((a + 2) / 4 <= std_uniform (g k) <= (b + 2) / 4)%R.
Proof.
  intros Hu. eexists _, _. split; [reflexivity|].
  split; [reflexivity|]. split.
  { cbn [data]. now rewrite length_map, length_seq, prior_dimension. }
  intros k Hk.
  destruct (prior_sample_entry n g k Hk) as (theta & g' & Hrun & Hv).
  injection Hrun as <- _.
  eexists. split; [exact Hv|]. split; [reflexivity|].
  specialize (Hu k). split; [lra|]. intros a b. lra.
Qed.

Lemma prior_sample_is_uniform_batch_witness :
  exists theta g',
    prior_sample prior 5 steady = Returned theta g' /\
    shape theta = [5; 3] /\
    length (data theta) = 15 /\
    forall k, k < 15 ->
      exists v,
        data theta !! k = Some v /\
        v = (-2 + 4 * std_uniform (steady k))%R /\
        (-2 <= v <= 2)%R /\
        forall a b,
          (a <= v <= b)%R <->
          ((a + 2) / 4 <= std_uniform (steady k) <= (b + 2) / 4)%R.
Proof.
  apply (prior_sample_is_uniform_batch 5 steady).
  intros k. simpl. lra.
Defined.

(** ** Running statements on a kernel *)

Section Runs.
Context `{L : npe}.

Lemma run_assign {B} name v (k : M B) K :
  (assign name v ;;; k) K
  = k (Kernel (<[name := v]> (globals K)) (rng K) (trace K)).
Proof. reflexivity. Qed.

Lemma run_log {B} ev (k : M B) K :
  (log ev ;;; k) K = k (Kernel (globals K) (rng K) (trace K ++ [ev])).
Proof. reflexivity. Qed.

Lemma run_lift {A B} (m : Gen A) (k : A -> M B) G g0 tr a g :
  m g0 = Returned a g ->
  (x <- lift m ;; k x) (Kernel G g0 tr) = k a (Kernel G g tr).
Proof. intros H. unfold bind, lift. cbn [rng]. now rewrite H. Qed.

Lemma run_lift_total {A B} (m : generator -> A * generator) (k : A -> M B)
    G g0 tr a g :
  m g0 = (a, g) ->
  (x <- lift_total m ;; k x) (Kernel G g0 tr) = k a (Kernel G g tr).
Proof. intros H. unfold bind, lift_total. cbn [rng]. now rewrite H. Qed.

Lemma run_get_int {B} name n (k : nat -> M B) K :
  globals K !! name = Some (VInt n) -> (x <- get_int name ;; k x) K = k n K.
Proof. intros H. unfold get_int, lookup_global, bind. now rewrite H. Qed.

Lemma run_get_bool {B} name b (k : bool -> M B) K :
  globals K !! name = Some (VBool b) -> (x <- get_bool name ;; k x) K = k b K.
Proof. intros H. unfold get_bool, lookup_global, bind. now rewrite H. Qed.

Lemma run_get_tensor {B} name t (k : tensor -> M B) K :
  globals K !! name = Some (VTensor t) ->
  (x <- get_tensor name ;; k x) K = k t K.
Proof. intros H. unfold get_tensor, lookup_global, bind. now rewrite H. Qed.

Lemma run_get_prior {B} name p (k : box_uniform -> M B) K :
  globals K !! name = Some (VPrior p) ->
  (x <- get_prior name ;; k x) K = k p K.
Proof. intros H. unfold get_prior, lookup_global, bind. now rewrite H. Qed.

Lemma run_get_simulator {B} name f (k : (tensor -> Gen tensor) -> M B) K :
  globals K !! name = Some (VSimulator f) ->
  (x <- get_simulator name ;; k x) K = k f K.
Proof. intros H. unfold get_simulator, lookup_global, bind. now rewrite H. Qed.

Lemma run_get_inference {B} name p sims
    (k : box_uniform * option (tensor * tensor) -> M B) K :
  globals K !! name = Some (VInference p sims) ->
  (x <- get_inference name ;; k x) K = k (p, sims) K.
Proof. intros H. unfold get_inference, lookup_global, bind. now rewrite H. Qed.

Lemma run_get_estimator {B} name e (k : estimator -> M B) K :
  globals K !! name = Some (VEstimator e) ->
  (x <- get_estimator name ;; k x) K = k e K.
Proof. intros H. unfold get_estimator, lookup_global, bind. now rewrite H. Qed.

Lemma run_get_posterior {B} name p e (k : box_uniform * estimator -> M B) K :
  globals K !! name = Some (VPosterior p e) ->
  (x <- get_posterior name ;; k x) K = k (p, e) K.
Proof. intros H. unfold get_posterior, lookup_global, bind. now rewrite H. Qed.

Lemma run_simulate_for_sbi {B} f p n (k : tensor * tensor -> M B)
    G g0 tr theta g1 x g2 :
  prior_sample p n g0 = Returned theta g1 ->
  f theta g1 = Returned x g2 ->
  (r <- simulate_for_sbi f p n ;; k r) (Kernel G g0 tr)
  = k (theta, x) (Kernel G g2 (tr ++ [Simulated theta x])).
Proof.
  intros H1 H2. unfold simulate_for_sbi, lift, log, ret, bind.
  cbn [rng globals trace]. rewrite H1. cbn [rng globals trace]. now rewrite H2.
Qed.

Lemma run_train {B} p theta x (k : estimator -> M B) G g0 tr e g :
  fit theta x g0 = (e, g) ->
  (r <- train (p, Some (theta, x)) ;; k r) (Kernel G g0 tr)
  = k e (Kernel G g (tr ++ [Trained theta x e])).
Proof.
  intros H. unfold train, lift_total, log, ret, bind.
  cbn [snd rng globals trace]. now rewrite H.
Qed.

Lemma run_posterior_sample {B} p e n x (k : tensor -> M B) G g0 tr s g :
  draw e n x g0 = (s, g) ->
  (r <- posterior_sample (p, e) n x ;; k r) (Kernel G g0 tr)
  = k s (Kernel G g (tr ++ [Sampled e n x])).
Proof.
  intros H. unfold posterior_sample, lift_total, log, ret, bind.
  cbn [snd rng globals trace]. now rewrite H.
Qed.

End Runs.

(** A global is looked up through the bindings made since. *)
Ltac find_global :=
  cbn [globals];
  repeat (rewrite lookup_insert_ne by discriminate);
  first [ apply lookup_insert_eq | eassumption ].

Ltac run_statement :=
  first
    [ rewrite run_assign
    | rewrite run_log
    | erewrite run_get_int by find_global
    | erewrite run_get_bool by find_global
    | erewrite run_get_tensor by find_global
    | erewrite run_get_prior by find_global
    | erewrite run_get_simulator by find_global
    | erewrite run_get_inference by find_global
    | erewrite run_get_estimator by find_global
    | erewrite run_get_posterior by find_global ];
  cbn [globals rng trace].

Section NotebookRuns.
Context `{L : npe}.

Lemma cell5_with_run f g :
  cell5_with f (fresh g)
  = lift (check_sbi_inputs f prior) (Kernel (globals5 f) g []).
Proof.
  unfold cell5_with, fresh.
  do 5 run_statement.
  unfold process_prior. cbv beta iota.
  do 9 run_statement.
  reflexivity.
Qed.

Lemma cell6_run K f p theta g1 x g2 e g3 :
  globals K !! "prior" = Some (VPrior p) ->
  globals K !! "simulator" = Some (VSimulator f) ->
  prior_sample p num_simulations (rng K) = Returned theta g1 ->
  f theta g1 = Returned x g2 ->
  fit theta x g2 = (e, g3) ->
  cell6 K
  = Returned tt
      (Kernel (globals6 (globals K) p theta x e) g3
         (trace K ++ [Simulated theta x; Trained theta x e])).
Proof.
  destruct K as [G g0 tr]. cbn [globals rng trace].
  intros Hp Hf Hth Hx He. unfold cell6.
  do 4 run_statement.
  rewrite (run_simulate_for_sbi _ _ _ _ _ _ _ _ _ _ _ Hth Hx).
  cbn [globals rng trace fst snd].
  do 5 run_statement. unfold append_simulations. cbn [fst].
  do 2 run_statement.
  rewrite (run_train _ _ _ _ _ _ _ _ _ He). cbn [globals rng trace].
  do 3 run_statement.
  unfold assign, build_posterior, globals6. cbn [globals rng trace fst].
  now rewrite <- app_assoc.
Qed.

Lemma cell9_run K f p t1 g1 x1 g2 t2 g3 x2 g4 :
  globals K !! "prior" = Some (VPrior p) ->
  globals K !! "simulator" = Some (VSimulator f) ->
  prior_sample p 1 (rng K) = Returned t1 g1 ->
  f t1 g1 = Returned x1 g2 ->
  prior_sample p 1 g2 = Returned t2 g3 ->
  f t2 g3 = Returned x2 g4 ->
  cell9 K = Returned tt (Kernel (globals9 (globals K) t1 x1 t2 x2) g4 (trace K)).
Proof.
  destruct K as [G g0 tr]. cbn [globals rng trace].
  intros Hp Hf H1 H2 H3 H4. unfold cell9.
  run_statement.
  rewrite (run_lift _ _ _ _ _ _ _ H1). cbn [globals rng trace].
  do 3 run_statement.
  rewrite (run_lift _ _ _ _ _ _ _ H2). cbn [globals rng trace].
  do 2 run_statement.
  rewrite (run_lift _ _ _ _ _ _ _ H3). cbn [globals rng trace].
  do 3 run_statement.
  rewrite (run_lift _ _ _ _ _ _ _ H4). cbn [globals rng trace].
  reflexivity.
Qed.

Lemma cell11_run K p e x_obs points s g :
  globals K !! "posterior" = Some (VPosterior p e) ->
  globals K !! "x_obs_1" = Some (VTensor x_obs) ->
  globals K !! "theta_1" = Some (VTensor points) ->
  draw e num_posterior_samples x_obs (rng K) = (s, g) ->
  cell11 K
  = Returned tt
      (Kernel (globals_sampled (globals K) "posterior_samples_1" s) g
         (trace K ++ [Sampled e num_posterior_samples x_obs])).
Proof.
  destruct K as [G g0 tr]. cbn [globals rng trace].
  intros Hp Hx Ht Hs. unfold cell11.
  do 2 run_statement.
  rewrite (run_posterior_sample _ _ _ _ _ _ _ _ _ _ Hs). cbn [globals rng trace].
  do 3 run_statement.
  reflexivity.
Qed.

Lemma cell14_run K p e x_obs points s g :
  globals K !! "posterior" = Some (VPosterior p e) ->
  globals K !! "x_obs_2" = Some (VTensor x_obs) ->
  globals K !! "theta_2" = Some (VTensor points) ->
  draw e num_posterior_samples x_obs (rng K) = (s, g) ->
  cell14 K
  = Returned tt
      (Kernel (globals_sampled (globals K) "posterior_samples_2" s) g
         (trace K ++ [Sampled e num_posterior_samples x_obs])).
Proof.
  destruct K as [G g0 tr]. cbn [globals rng trace].
  intros Hp Hx Ht Hs. unfold cell14.
  do 2 run_statement.
  rewrite (run_posterior_sample _ _ _ _ _ _ _ _ _ _ Hs). cbn [globals rng trace].
  do 3 run_statement.
  reflexivity.
Qed.

End NotebookRuns.

(** ** A run of the whole notebook *)

Section Sessions.
Context `{L : npe}.

Lemma session_cells f g s :
  session_of f g s ->
  cell5_with f (fresh g) = Returned tt (after5 f s) /\
  cell6 (after5 f s) = Returned tt (after6 f s) /\
  cell9 (after6 f s) = Returned tt (after9 f s) /\
  cell11 (after9 f s) = Returned tt (after11 f s) /\
  cell14 (after11 f s) = Returned tt (after14 f s).
Proof.
  intros (Hc & Hth & Hx & He & H1 & H2 & H3 & H4 & H5 & H6).
  split; [|split; [|split; [|split]]].
  - rewrite cell5_with_run. unfold lift. cbn [rng]. now rewrite Hc.
  - apply (cell6_run (after5 f s) f prior _ _ _ _ _ _
             eq_refl eq_refl Hth Hx He).
  - apply (cell9_run (after6 f s) f prior _ _ _ _ _ _ _ _
             eq_refl eq_refl H1 H2 H3 H4).
  - apply (cell11_run (after9 f s) prior (s_estimator s) _ (s_theta_1 s) _ _
             eq_refl eq_refl eq_refl H5).
  - apply (cell14_run (after11 f s) prior (s_estimator s) _ (s_theta_2 s) _ _
             eq_refl eq_refl eq_refl H6).
Qed.

Lemma session_notebook f g s :
  session_of f g s -> notebook_with f (fresh g) = Returned tt (after14 f s).
Proof.
  intros Hs. destruct (session_cells f g s Hs) as (H5 & H6 & H9 & H11 & H14).
  unfold notebook_with.
  rewrite (bind_returned _ _ _ _ _ H5), (bind_returned _ _ _ _ _ H6).
  rewrite (bind_returned _ _ _ _ _ H9), (bind_returned _ _ _ _ _ H11).
  exact H14.
Qed.

Lemma prior_sample_returns p n g :
  exists theta g', prior_sample p n g = Returned theta g'.
Proof. eexists _, _. reflexivity. Qed.

Lemma session_exists f g g0 :
  total f ->
  check_sbi_inputs f prior g = Returned tt g0 ->
  exists s, session_of f g s /\ s_checked s = g0.
Proof.
  intros Hf Hc.
  destruct (prior_sample_returns prior num_simulations g0) as (th & g1 & Hth).
  destruct (Hf th g1) as (x & g2 & Hx).
  destruct (fit th x g2) as [e g3] eqn:He.
  destruct (prior_sample_returns prior 1 g3) as (t1 & g4 & H1).
  destruct (Hf t1 g4) as (x1 & g5 & H2).
  destruct (prior_sample_returns prior 1 g5) as (t2 & g6 & H3).
  destruct (Hf t2 g6) as (x2 & g7 & H4).
  destruct (draw e num_posterior_samples x1 g7) as [s1 g8] eqn:H5.
  destruct (draw e num_posterior_samples x2 g8) as [s2 g9] eqn:H6.
  exists (Session g0 th g1 x g2 e g3 t1 g4 x1 g5 t2 g6 x2 g7 s1 g8 s2 g9).
  split; [|reflexivity].
  exact (conj Hc (conj Hth (conj Hx (conj He (conj H1 (conj H2 (conj H3
           (conj H4 (conj H5 H6))))))))).
Qed.

End Sessions.

Section Validation.
Context `{L : npe}.

Lemma check_raises_assertion f g e g' :
  total f -> check_sbi_inputs f prior g = Raised e g' -> e = AssertionError.
Proof.
  intros Hf. unfold check_sbi_inputs, bind.
  destruct (prior_sample_returns prior 1 g) as (th & g1 & ->).
  destruct (Hf th g1) as (x & g2 & ->).
  destruct (decide _); intros H; inversion H. reflexivity.
Qed.

(** C6.  The consistency check of cell 5 is the only validation of the run:
    when it raises, the run ends there with that exception, before any
    training set has been generated and before any training, and no later
    cell runs; a run raises only in this way, and when the check passes
    the run reaches its end. *)
Theorem check_failure_halts_before_training f g :
  total f ->
  (forall e g',
      check_sbi_inputs f prior g = Raised e g' ->
      e = AssertionError /\
      exists K,
        cell5_with f (fresh g) = Raised e K /\
        notebook_with f (fresh g) = Raised e K /\
        rng K = g' /\ trace K = [] /\
        globals K !! "inference" = None /\
        globals K !! "theta" = None /\
        globals K !! "x" = None /\
        globals K !! "density_estimator" = None /\
        globals K !! "posterior" = None)
  /\ (forall e K,
        notebook_with f (fresh g) = Raised e K ->
        check_sbi_inputs f prior g = Raised e (rng K))
  /\ (forall g0,
        check_sbi_inputs f prior g = Returned tt g0 ->
        exists K, notebook_with f (fresh g) = Returned tt K).
Proof.
  intros Hf.
  assert (Hraise : forall e g',
             check_sbi_inputs f prior g = Raised e g' ->
             cell5_with f (fresh g) = Raised e (Kernel (globals5 f) g' [])).
  { intros e g' Hc. rewrite cell5_with_run. unfold lift. cbn [rng].
    now rewrite Hc. }
  split; [|split].
  - intros e g' Hc. split; [exact (check_raises_assertion f g e g' Hf Hc)|].
    exists (Kernel (globals5 f) g' []).
    split; [exact (Hraise e g' Hc)|]. split.
    { unfold notebook_with. exact (bind_raised _ _ _ _ _ (Hraise e g' Hc)). }
    repeat split; reflexivity.
  - intros e K Hrun.
    destruct (check_sbi_inputs f prior g) as [[] g0|e' g'] eqn:Hc.
    + destruct (session_exists f g g0 Hf Hc) as (s & Hs & _).
      rewrite (session_notebook f g s Hs) in Hrun. discriminate.
    + unfold notebook_with in Hrun.
      rewrite (bind_raised _ _ _ _ _ (Hraise e' g' eq_refl)) in Hrun.
      now injection Hrun as <- <-.
  - intros g0 Hc. destruct (session_exists f g g0 Hf Hc) as (s & Hs & _).
    exists (after14 f s). exact (session_notebook f g s Hs).
Qed.

End Validation.

Lemma unbatched_total : total unbatched.
Proof. intros theta g. eexists _, _. reflexivity. Qed.

Lemma check_failure_halts_before_training_witness :
  total unbatched /\
  exists K,
    notebook_with (L := recall) unbatched (fresh steady)
      = Raised AssertionError K /\
    trace K = [] /\ globals K !! "theta" = None.
Proof.
  split; [exact unbatched_total|].
  destruct (proj1 (check_failure_halts_before_training (L := recall)
                     unbatched steady unbatched_total)
              AssertionError (advance (1 * 3) steady) eq_refl)
    as (_ & K & _ & Hrun & _ & Htr & _ & Hth & _).
  exists K. exact (conj Hrun (conj Htr Hth)).
Defined.

(** ** What a cell leaves alone *)

Section Frames.
Context `{L : npe}.

Lemma preserves_refl names K : preserves names K K.
Proof. split; reflexivity. Qed.

Lemma preserves_trans names K1 K2 K3 :
  preserves names K1 K2 -> preserves names K2 K3 -> preserves names K1 K3.
Proof.
  intros [G12 T12] [G23 T23]. split.
  - intros n Hn. now rewrite G23, G12.
  - now rewrite T23, T12.
Qed.

Lemma frame_bind {A B} names (m : M A) (k : A -> M B) :
  frame names m -> (forall a, frame names (k a)) -> frame names (bind m k).
Proof.
  intros Hm Hk K. unfold bind. specialize (Hm K).
  destruct (m K) as [a K1|e K1]; cbn [final_state] in *.
  - eapply preserves_trans; [exact Hm | apply Hk].
  - exact Hm.
Qed.

Lemma frame_ret {A} names (a : A) : frame names (ret a).
Proof. intros K. apply preserves_refl. Qed.

Lemma frame_raise {A} names e : frame names (raise (A := A) e).
Proof. intros K. apply preserves_refl. Qed.

Lemma frame_lookup_global names name : frame names (lookup_global name).
Proof.
  intros K. unfold lookup_global.
  destruct (globals K !! name); apply preserves_refl.
Qed.

Lemma frame_get_tensor names name : frame names (get_tensor name).
Proof.
  apply frame_bind; [apply frame_lookup_global|].
  intros []; first [apply frame_ret | apply frame_raise].
Qed.

Lemma frame_get_posterior names name : frame names (get_posterior name).
Proof.
  apply frame_bind; [apply frame_lookup_global|].
  intros []; first [apply frame_ret | apply frame_raise].
Qed.

Lemma frame_assign names name v : name ∈ names -> frame names (assign name v).
Proof.
  intros Hin K. split; [|reflexivity].
  intros n Hn. cbn [final_state assign globals].
  apply lookup_insert_ne. intros ->. now apply Hn.
Qed.

Lemma frame_posterior_sample names posterior n x :
  frame names (posterior_sample posterior n x).
Proof.
  intros K. unfold posterior_sample, lift_total, log, ret, bind.
  destruct (draw (snd posterior) n x (rng K)) as [s g].
  cbn [final_state globals rng trace]. split; [reflexivity|].
  unfold training_events. cbn [trace]. rewrite List.filter_app.
  cbn [List.filter is_training].
  apply app_nil_r.
Qed.

Lemma cell11_frame : frame ["posterior_samples_1"; "_"] cell11.
Proof.
  unfold cell11.
  repeat first
    [ apply frame_get_posterior
    | apply frame_get_tensor
    | apply frame_posterior_sample
    | apply frame_assign; rewrite !elem_of_cons; auto
    | apply frame_bind; [|intros ?] ].
Qed.

End Frames.

(** ** The notebook with its own simulator *)

Lemma simulator_total : total simulator.
Proof.
  intros theta g. unfold simulator, bind, randn_like, tensor_add, pointwise.
  cbn [shape add_scalar mul_scalar]. rewrite broadcast_shapes_refl.
  eexists _, _. reflexivity.
Qed.

Lemma prior_sample_shape n g theta g' :
  prior_sample prior n g = Returned theta g' ->
  shape theta = [n; 3] /\ wf theta /\ g' = advance (n * 3) g.
Proof.
  intros H. injection H as <- <-. split; [reflexivity|]. split; [|reflexivity].
  unfold wf. cbn [data shape]. rewrite length_map, length_seq.
  change (length (data (low prior))) with 3. cbn [numel foldr]. lia.
Qed.

Lemma check_passes g :
  check_sbi_inputs simulator prior g = Returned tt (advance 3 (advance 3 g)).
Proof.
  unfold check_sbi_inputs.
  destruct (prior_sample_returns prior 1 g) as (theta & g1 & Hth).
  rewrite (bind_returned _ _ _ _ _ Hth).
  destruct (prior_sample_shape 1 g theta g1 Hth) as (Hsh & Hwf & ->).
  rewrite (bind_returned _ _ _ _ _ (simulator_returns theta _ Hwf)).
  cbn [shape]. rewrite decide_True by reflexivity.
  rewrite Hsh. reflexivity.
Qed.

Section Amortization.
Context `{L : npe}.

Lemma notebook_session g :
  exists s,
    session_of simulator g s /\
    s_checked s = advance 3 (advance 3 g) /\
    notebook (fresh g) = Returned tt (after14 simulator s).
Proof.
  destruct (session_exists simulator g _ simulator_total (check_passes g))
    as (s & Hs & Hg).
  exists s. split; [exact Hs|]. split; [exact Hg|].
  exact (session_notebook simulator g s Hs).
Qed.

(** C2.  The posterior is built once, in cell 6.  The first sampling call
    (cell 11) leaves the posterior, the training set and the fitted model
    as they were, whatever the kernel it runs on, and records no new
    training set and no training; in a run of the notebook the draws for
    [x_obs_1] and for [x_obs_2] both come from the one fitted model, and the
    training set was generated once and the model trained once. *)
Theorem posterior_is_amortized g :
  (forall K,
      let K' := final_state (cell11 K) in
      globals K' !! "posterior" = globals K !! "posterior" /\
      globals K' !! "density_estimator" = globals K !! "density_estimator" /\
      globals K' !! "inference" = globals K !! "inference" /\
      globals K' !! "theta" = globals K !! "theta" /\
      globals K' !! "x" = globals K !! "x" /\
      training_events (trace K') = training_events (trace K))
  /\ exists s,
       session_of simulator g s /\
       notebook (fresh g) = Returned tt (after14 simulator s) /\
       cell11 (after9 simulator s) = Returned tt (after11 simulator s) /\
       cell14 (after11 simulator s) = Returned tt (after14 simulator s) /\
       globals (after9 simulator s) !! "posterior"
         = Some (VPosterior prior (s_estimator s)) /\
       globals (after11 simulator s) !! "posterior"
         = Some (VPosterior prior (s_estimator s)) /\
       globals (after14 simulator s) !! "posterior"
         = Some (VPosterior prior (s_estimator s)) /\
       draw (s_estimator s) num_posterior_samples (s_x_obs_1 s)
            (rng (after9 simulator s))
         = (s_samples_1 s, rng (after11 simulator s)) /\
       draw (s_estimator s) num_posterior_samples (s_x_obs_2 s)
            (rng (after11 simulator s))
         = (s_samples_2 s, rng (after14 simulator s)) /\
       globals (after14 simulator s) !! "posterior_samples_1"
         = Some (VTensor (s_samples_1 s)) /\
       globals (after14 simulator s) !! "posterior_samples_2"
         = Some (VTensor (s_samples_2 s)) /\
       trace (after14 simulator s)
         = [Simulated (s_theta s) (s_x s);
            Trained (s_theta s) (s_x s) (s_estimator s);
            Sampled (s_estimator s) num_posterior_samples (s_x_obs_1 s);
            Sampled (s_estimator s) num_posterior_samples (s_x_obs_2 s)].
Proof.
  split.
  - intros K K'. destruct (cell11_frame K) as [HG HT]. fold K' in HG, HT.
    repeat split; try exact HT; apply HG;
      rewrite !not_elem_of_cons; repeat split;
      solve [discriminate | apply not_elem_of_nil].
  - destruct (notebook_session g) as (s & Hs & _ & Hrun).
    destruct (session_cells simulator g s Hs) as (_ & _ & _ & H11 & H14).
    destruct Hs as (Hc & Hth & Hx & He & H1 & H2 & H3 & H4 & H5 & H6).
    exists s.
    split; [exact (conj Hc (conj Hth (conj Hx (conj He (conj H1 (conj H2
                     (conj H3 (conj H4 (conj H5 H6)))))))))|].
    split; [exact Hrun|]. split; [exact H11|]. split; [exact H14|].
    split; [reflexivity|]. split; [reflexivity|]. split; [reflexivity|].
    split; [exact H5|]. split; [exact H6|].
    split; [reflexivity|]. split; reflexivity.
Qed.

End Amortization.

(** ** The training set *)

Lemma numel_cons d s : numel (d :: s) = d * numel s.
Proof. reflexivity. Qed.





Section TrainingSet.
Context `{L : npe}.


End TrainingSet.



(** * Further properties of the simulator *)

Lemma numel_zero s : 0 ∈ s -> numel s = 0.
Proof.
  induction s as [|d s IH]; intros Hin.
  - now apply elem_of_nil in Hin.
  - rewrite numel_cons. apply elem_of_cons in Hin as [<-|Hin]; [reflexivity|].
    rewrite IH by exact Hin. lia.
Qed.

(** X2.  On a tensor with a dimension of size 0 (an empty batch) the
    simulator returns the empty tensor of that shape and leaves the
    generator where it was. *)
Theorem simulator_empty_batch theta g :
  wf theta -> 0 ∈ shape theta ->
  simulator theta g = Returned (Tensor (shape theta) []) g.
Proof.
  intros Hwf Hz. rewrite (simulator_returns theta g Hwf).
  rewrite (numel_zero _ Hz). unfold normals. cbn [seq map].
  now rewrite zip_with_nil_r.
Qed.

Lemma simulator_empty_batch_witness :
  simulator empty_batch ramp = Returned (Tensor [0; 3] []) ramp.
Proof.
  apply (simulator_empty_batch empty_batch ramp).
  - reflexivity.
  - apply elem_of_cons. now left.
Defined.

(** * Further properties of the cells *)

Section Cells.
Context `{L : npe}.

Lemma untouched_refl names K : untouched names K K.
Proof. split; reflexivity. Qed.

Lemma untouched_trans names K1 K2 K3 :
  untouched names K1 K2 -> untouched names K2 K3 -> untouched names K1 K3.
Proof.
  intros [G12 T12] [G23 T23]. split.
  - intros n Hn. now rewrite G23, G12.
  - now rewrite T23, T12.
Qed.

Lemma keeps_bind {A B} names (m : M A) (k : A -> M B) :
  keeps names m -> (forall a, keeps names (k a)) -> keeps names (bind m k).
Proof.
  intros Hm Hk K. unfold bind. specialize (Hm K).
  destruct (m K) as [a K1|e K1]; cbn [final_state] in *.
  - eapply untouched_trans; [exact Hm | apply Hk].
  - exact Hm.
Qed.

Lemma keeps_lookup_global names name : keeps names (lookup_global name).
Proof.
  intros K. unfold lookup_global.
  destruct (globals K !! name); apply untouched_refl.
Qed.

Lemma keeps_get (A : Type) names name (pick : value -> M A) :
  (forall v, keeps names (pick v)) ->
  keeps names (v <- lookup_global name ;; pick v).
Proof. intros H. apply keeps_bind; [apply keeps_lookup_global | exact H]. Qed.

Lemma keeps_pure {A} names (r : M A) :
  (forall K, final_state (r K) = K) -> keeps names r.
Proof. intros H K. rewrite H. apply untouched_refl. Qed.

Lemma keeps_get_prior names name : keeps names (get_prior name).
Proof.
  apply keeps_get. intros []; apply keeps_pure; reflexivity.
Qed.

Lemma keeps_get_simulator names name : keeps names (get_simulator name).
Proof.
  apply keeps_get. intros []; apply keeps_pure; reflexivity.
Qed.

Lemma keeps_get_tensor names name : keeps names (get_tensor name).
Proof.
  apply keeps_get. intros []; apply keeps_pure; reflexivity.
Qed.

Lemma keeps_lift {A} names (m : Gen A) : keeps names (lift m).
Proof.
  intros K. unfold lift. destruct (m (rng K)); split; reflexivity.
Qed.

Lemma keeps_assign names name v : name ∈ names -> keeps names (assign name v).
Proof.
  intros Hin K. split; [|reflexivity].
  intros n Hn. cbn [final_state assign globals].
  apply lookup_insert_ne. intros ->. now apply Hn.
Qed.

Lemma cell9_keeps : keeps ["theta_1"; "x_obs_1"; "theta_2"; "x_obs_2"] cell9.
Proof.
  unfold cell9.
  repeat first
    [ apply keeps_get_prior
    | apply keeps_get_simulator
    | apply keeps_get_tensor
    | apply keeps_lift
    | apply keeps_assign; rewrite !elem_of_cons; auto 6
    | apply keeps_bind; [|intros ?] ].
Qed.

(** X6.  Cell 9 binds [theta_1], [x_obs_1], [theta_2] and [x_obs_2] and
    nothing else: on any kernel, also when it raises half way, every other
    global (the prior, the simulator, the training set, the posterior) is
    as before and no call into the inference library is recorded. *)
Theorem cell9_only_binds_observations K :
  trace (final_state (cell9 K)) = trace K /\
  forall name,
    name ∉ ["theta_1"; "x_obs_1"; "theta_2"; "x_obs_2"] ->
    globals (final_state (cell9 K)) !! name = globals K !! name.
Proof.
  destruct (cell9_keeps K) as [HG HT]. split; [exact HT | exact HG].
Qed.

Lemma cell14_frame : frame ["posterior_samples_2"; "_"] cell14.
Proof.
  unfold cell14.
  repeat first
    [ apply frame_get_posterior
    | apply frame_get_tensor
    | apply frame_posterior_sample
    | apply frame_assign; rewrite !elem_of_cons; auto
    | apply frame_bind; [|intros ?] ].
Qed.

(** X7.  The second sampling cell binds [posterior_samples_2] and [_]
    only: on any kernel the draws of the first sampling cell, the
    observations, the posterior and the training set are as before, and no
    training set is generated and no model trained. *)
Theorem cell14_keeps_first_samples K :
  training_events (trace (final_state (cell14 K))) = training_events (trace K)
  /\ forall name,
       name ∉ ["posterior_samples_2"; "_"] ->
       globals (final_state (cell14 K)) !! name = globals K !! name.
Proof.
  destruct (cell14_frame K) as [HG HT]. split; [exact HT | exact HG].
Qed.

(** X8.  Cells 6 and 9 read [prior] first: on a kernel in which cell 5 has
    not bound it they raise [NameError] at once and leave the kernel as it
    was, with no value taken from the generator and nothing recorded. *)
Theorem cells_need_the_prior K :
  globals K !! "prior" = None ->
  cell6 K = Raised NameError K /\ cell9 K = Raised NameError K.
Proof.
  intros H. unfold cell6, cell9, get_prior, lookup_global.
  split; apply bind_raised; apply bind_raised; now rewrite H.
Qed.

(** X9.  The sampling cells read [posterior] and then their observation:
    when the posterior is not bound, or it is bound and the observations
    are not, cells 11 and 14 raise [NameError] and leave the kernel as it
    was; no posterior draw is made. *)
Theorem sampling_cells_need_their_inputs K :
  globals K !! "posterior" = None \/
  (exists p e, globals K !! "posterior" = Some (VPosterior p e) /\
               globals K !! "x_obs_1" = None /\
               globals K !! "x_obs_2" = None) ->
  cell11 K = Raised NameError K /\ cell14 K = Raised NameError K.
Proof.
  intros [H|(p & e & Hp & H1 & H2)].
  - unfold cell11, cell14, get_posterior, lookup_global.
    split; apply bind_raised; apply bind_raised; now rewrite H.
  - unfold cell11, cell14.
    rewrite !(run_get_posterior _ p e _ K Hp).
    unfold get_tensor, lookup_global.
    split; apply bind_raised; apply bind_raised; [now rewrite H1|now rewrite H2].
Qed.

End Cells.

Lemma cells_need_the_prior_witness :
  cell6 (L := recall) (fresh steady) = Raised NameError (fresh steady) /\
  cell9 (L := recall) (fresh steady) = Raised NameError (fresh steady).
Proof.
  exact (cells_need_the_prior (L := recall) (fresh steady) eq_refl).
Defined.

Lemma sampling_cells_need_their_inputs_witness :
  cell11 only_posterior = Raised NameError only_posterior /\
  cell14 only_posterior = Raised NameError only_posterior.
Proof.
  apply (sampling_cells_need_their_inputs (L := recall) only_posterior).
  right. exists prior, tt. repeat split; reflexivity.
Defined.


(** * Rounding to float32

    How far the result of an addition, a subtraction or a multiplication
    of two float32 numbers is from the exact result. *)

Lemma digits2_pos_bounds p :
  (2 ^ (Z.pos (digits2_pos p) - 1) <= Z.pos p < 2 ^ Z.pos (digits2_pos p))%Z.
Proof.
  induction p as [p IH|p IH|]; cbn [digits2_pos].
  - rewrite Pos2Z.inj_succ, Pos2Z.inj_xI.
    replace (Z.succ (Z.pos (digits2_pos p)) - 1)%Z
      with (Z.succ (Z.pos (digits2_pos p) - 1)) by lia.
    rewrite !Z.pow_succ_r by lia. revert IH.
    generalize (2 ^ (Z.pos (digits2_pos p) - 1))%Z
               (2 ^ Z.pos (digits2_pos p))%Z.
    intros a b. lia.
  - rewrite Pos2Z.inj_succ. change (Z.pos p~0) with (2 * Z.pos p)%Z.
    replace (Z.succ (Z.pos (digits2_pos p)) - 1)%Z
      with (Z.succ (Z.pos (digits2_pos p) - 1)) by lia.
    rewrite !Z.pow_succ_r by lia. revert IH.
    generalize (2 ^ (Z.pos (digits2_pos p) - 1))%Z
               (2 ^ Z.pos (digits2_pos p))%Z.
    intros a b. lia.
  - simpl. lia.
Qed.

Lemma shr_1_m r : (0 <= shr_m r)%Z -> shr_m (shr_1 r) = (shr_m r / 2)%Z.
Proof.
  destruct r as [m rb sb]. cbn [shr_m]. intros Hm.
  rewrite <- Z.div2_div.
  destruct m as [|[p|p|]|p]; try reflexivity; lia.
Qed.

Lemma iter_shr_m p r :
  (0 <= shr_m r)%Z ->
  shr_m (SpecFloat.iter_pos shr_1 p r) = (shr_m r / 2 ^ Z.pos p)%Z.
Proof.
  revert r. induction p as [p IH|p IH|]; intros r Hr; cbn [SpecFloat.iter_pos].
  - assert (H1 : (0 <= shr_m (shr_1 r))%Z).
    { rewrite shr_1_m by exact Hr. apply Z.div_pos; lia. }
    assert (H2 : (0 <= shr_m (SpecFloat.iter_pos shr_1 p (shr_1 r)))%Z).
    { rewrite IH by exact H1. apply Z.div_pos; lia. }
    rewrite IH, IH, shr_1_m by assumption.
    rewrite !Z.div_div by lia. f_equal.
    replace (Z.pos p~1) with (1 + Z.pos p + Z.pos p)%Z by lia.
    rewrite !Z.pow_add_r by lia. change (2 ^ 1)%Z with 2%Z. ring.
  - assert (H2 : (0 <= shr_m (SpecFloat.iter_pos shr_1 p r))%Z).
    { rewrite IH by exact Hr. apply Z.div_pos; lia. }
    rewrite IH, IH by assumption.
    rewrite !Z.div_div by lia. f_equal.
    replace (Z.pos p~0) with (Z.pos p + Z.pos p)%Z by lia.
    rewrite !Z.pow_add_r by lia. ring.
  - rewrite shr_1_m by exact Hr. reflexivity.
Qed.
Lemma bpow_add a b : bpow (a + b) = (bpow a * bpow b)%R.
Proof. unfold bpow. apply powerRZ_add. lra. Qed.

Lemma bpow_pos e : (0 < bpow e)%R.
Proof. unfold bpow. apply powerRZ_lt. lra. Qed.

Lemma bpow_IZR k : (0 <= k)%Z -> bpow k = IZR (2 ^ k).
Proof.
  intros Hk. unfold bpow. rewrite <- (Z2Nat.id k) by exact Hk.
  rewrite <- pow_powerRZ, <- pow_IZR. reflexivity.
Qed.

Lemma bpow_ge_1 k : (0 <= k)%Z -> (1 <= bpow k)%R.
Proof.
  intros Hk. rewrite bpow_IZR by exact Hk. apply IZR_le.
  assert (H : (0 < 2 ^ k)%Z) by (apply Z.pow_pos_nonneg; lia).
  revert H. generalize (2 ^ k)%Z. intros z Hz. lia.
Qed.

Lemma bpow_le a b : (a <= b)%Z -> (bpow a <= bpow b)%R.
Proof.
  intros Hab. replace b with (a + (b - a))%Z by lia. rewrite bpow_add.
  pose proof (bpow_pos a). pose proof (bpow_ge_1 (b - a) ltac:(lia)). nra.
Qed.

Lemma bpow_lt_inv a b : (bpow a < bpow b)%R -> (a < b)%Z.
Proof.
  intros H. destruct (Z_lt_le_dec a b) as [Hlt|Hle]; [exact Hlt|].
  apply bpow_le in Hle. lra.
Qed.

Lemma F2R_0 e : F2R 0 e = 0%R.
Proof. unfold F2R. lra. Qed.

Lemma F2R_le m m' e : (m <= m')%Z -> (F2R m e <= F2R m' e)%R.
Proof.
  intros H. unfold F2R. apply IZR_le in H.
  pose proof (bpow_pos e). unfold bpow in *. nra.
Qed.

Lemma F2R_lt m m' e : (m < m')%Z -> (F2R m e < F2R m' e)%R.
Proof.
  intros H. unfold F2R. apply IZR_lt in H.
  pose proof (bpow_pos e). unfold bpow in *. nra.
Qed.

Lemma F2R_opp m e : F2R (- m) e = (- F2R m e)%R.
Proof. unfold F2R. rewrite opp_IZR. lra. Qed.

Lemma F2R_plus m m' e : F2R (m + m') e = (F2R m e + F2R m' e)%R.
Proof. unfold F2R. rewrite plus_IZR. lra. Qed.

Lemma F2R_shift m e k :
  (0 <= k)%Z -> F2R (m * 2 ^ k) e = F2R m (e + k).
Proof.
  intros Hk. unfold F2R. fold (bpow e) (bpow (e + k)).
  rewrite mult_IZR, bpow_add, <- bpow_IZR by exact Hk. lra.
Qed.

Lemma F2R_bpow e : F2R 1 e = bpow e.
Proof. unfold F2R, bpow. lra. Qed.

Lemma F2R_mult m m' e e' : F2R (m * m') (e + e') = (F2R m e * F2R m' e')%R.
Proof.
  unfold F2R. fold (bpow e) (bpow e') (bpow (e + e')).
  rewrite mult_IZR, bpow_add. lra.
Qed.

(** The quotient by a power of two brackets the value. *)
Lemma F2R_div_bracket m e n :
  (0 <= m)%Z -> (0 < n)%Z ->
  (F2R (m / 2 ^ n) (e + n) <= F2R m e < F2R (m / 2 ^ n + 1) (e + n))%R.
Proof.
  intros Hm Hn.
  assert (Hp : (0 < 2 ^ n)%Z) by (apply Z.pow_pos_nonneg; lia).
  rewrite <- !F2R_shift by lia. split.
  - apply F2R_le. rewrite Z.mul_comm. apply Z.mul_div_le. exact Hp.
  - apply F2R_lt. rewrite Z.mul_comm. apply Z.mul_succ_div_gt. exact Hp.
Qed.

Lemma F2R_ge_bpow p e :
  (bpow (Z.pos (digits2_pos p) - 1 + e) <= F2R (Z.pos p) e)%R.
Proof.
  rewrite bpow_add.
  assert (Hd : (0 <= Z.pos (digits2_pos p) - 1)%Z) by lia.
  rewrite (bpow_IZR _ Hd). fold (F2R (2 ^ (Z.pos (digits2_pos p) - 1)) e).
  apply F2R_le. apply digits2_pos_bounds.
Qed.

Lemma round_nearest_even_cases m l :
  round_nearest_even m l = m \/ round_nearest_even m l = (m + 1)%Z.
Proof.
  destruct l as [|[]]; cbn [round_nearest_even]; auto.
  destruct (Z.even m); auto.
Qed.

Lemma digits_le_24 q : (Z.pos q < 2 ^ 24)%Z -> (Z.pos (digits2_pos q) <= 24)%Z.
Proof.
  intros H. pose proof (digits2_pos_bounds q) as [Hlo _].
  assert (Hlt : (2 ^ (Z.pos (digits2_pos q) - 1) < 2 ^ 24)%Z) by lia.
  apply Z.pow_lt_mono_r_iff in Hlt; lia.
Qed.

(** First shift: either the mantissa already fits, or it is divided by the
    power of two that brings the exponent to [fexp]. *)
Lemma shr_fexp_first m e mrs e1 :
  shr_fexp 24 128 (Z.pos m) e loc_Exact = (mrs, e1) ->
  (e1 = e /\ mrs = Build_shr_record (Z.pos m) false false /\
   (Z.pos (digits2_pos m) <= 24)%Z /\ (-149 <= e)%Z)
  \/ ((e < e1)%Z /\
      e1 = Z.max (Z.pos (digits2_pos m) + e - 24) (-149) /\
      shr_m mrs = (Z.pos m / 2 ^ (e1 - e))%Z).
Proof.
  unfold shr_fexp, shr, fexp. change (emin 24 128) with (-149)%Z.
  cbn [Zdigits2 shr_record_of_loc].
  destruct (Z.max (Z.pos (digits2_pos m) + e - 24) (-149) - e)%Z
    as [|p|p] eqn:Hn; intros H; injection H as <- <-.
  - left. repeat split; lia.
  - right. split; [lia|]. split; [lia|].
    rewrite iter_shr_m by (cbn; lia). cbn [shr_m]. f_equal. f_equal. lia.
  - left. repeat split; lia.
Qed.

(** Second shift, after rounding: the value is kept. *)
Lemma shr_fexp_second m2 e1 mrs e2 :
  (0 <= m2 <= 2 ^ 24)%Z -> (-149 <= e1)%Z ->
  shr_fexp 24 128 m2 e1 loc_Exact = (mrs, e2) ->
  F2R (shr_m mrs) e2 = F2R m2 e1 /\
  (0 <= shr_m mrs)%Z /\ (e1 <= e2 <= e1 + 1)%Z /\
  (e2 = e1 \/ (24 < Zdigits2 m2)%Z).
Proof.
  intros Hm He. unfold shr_fexp, shr, fexp. change (emin 24 128) with (-149)%Z.
  destruct (Z.eq_dec m2 (2 ^ 24)%Z) as [->|Hne].
  - change (Zdigits2 (2 ^ 24)%Z) with 25%Z.
    replace (Z.max (25 + e1 - 24) (-149) - e1)%Z with 1%Z by lia.
    intros H. injection H as <- <-. cbn [shr_record_of_loc SpecFloat.iter_pos].
    split; [|split; [|split]].
    + change (shr_m (shr_1 (Build_shr_record (2 ^ 24)%Z false false)))
        with (2 ^ 23)%Z.
      change (2 ^ 24)%Z with (2 ^ 23 * 2 ^ 1)%Z.
      now rewrite F2R_shift by lia.
    + cbn. lia.
    + lia.
    + right. lia.
  - assert (Hd : (Zdigits2 m2 <= 24)%Z).
    { destruct m2 as [|q|q]; cbn [Zdigits2]; try lia.
      apply digits_le_24. lia. }
    destruct (Z.max (Zdigits2 m2 + e1 - 24) (-149) - e1)%Z as [|p|p] eqn:Hn;
      try lia; intros H; injection H as <- <-;
      (split; [reflexivity|]); (split; [destruct m2; cbn; lia|]);
      (split; [lia|]); left; reflexivity.
Qed.
Lemma F2R_cond_Zopp s m e :
  F2R (cond_Zopp s m) e = (if s then - F2R m e else F2R m e)%R.
Proof. destruct s; cbn [cond_Zopp]; [apply F2R_opp | reflexivity]. Qed.

Lemma binary_round_aux_correct s m e :
  (F2R (Z.pos m) e < bpow 127)%R ->
  (e <= 104 \/ 24 < Z.pos (digits2_pos m))%Z ->
  f32_finite (binary_round_aux 24 128 s (Z.pos m) e loc_Exact) = true /\
  (Rabs (f32_real (binary_round_aux 24 128 s (Z.pos m) e loc_Exact)
         - F2R (cond_Zopp s (Z.pos m)) e)
   <= F2R (Z.pos m) e / 8388608 + bpow (-149))%R.
Proof.
  intros Hx Hshape. unfold binary_round_aux.
  destruct (shr_fexp 24 128 (Z.pos m) e loc_Exact) as [mrs e1] eqn:H1.
  set (m2 := round_nearest_even (shr_m mrs) (loc_of_shr_record mrs)).
  destruct (shr_fexp 24 128 m2 e1 loc_Exact) as [mrs2 e2] eqn:H2.
  set (d := Z.pos (digits2_pos m)) in *.
  pose proof (digits2_pos_bounds m) as [Hdlo Hdhi]. fold d in Hdlo, Hdhi.
  pose proof (F2R_ge_bpow m e) as Hxlo. fold d in Hxlo.
  assert (Hx0 : (0 < F2R (Z.pos m) e)%R).
  { rewrite <- (F2R_0 e). apply F2R_lt. lia. }
  pose proof (bpow_pos (-149)) as Heta.
  assert (Hde : (d + e <= 127)%Z).
  { assert (d - 1 + e < 127)%Z by (apply bpow_lt_inv; lra). lia. }
  assert (Hfacts :
    (0 <= m2 <= 2 ^ 24)%Z /\ (-149 <= e1)%Z /\
    (Rabs (F2R m2 e1 - F2R (Z.pos m) e)
     <= F2R (Z.pos m) e / 8388608 + bpow (-149))%R /\
    (e1 <= 104)%Z /\ ((24 < Zdigits2 m2)%Z -> (e1 <= 103)%Z)).
  { destruct (shr_fexp_first m e mrs e1 H1)
      as [(-> & -> & Hd & He)|(Hlt & He1 & Hm1)].
    - subst m2. cbn [shr_m loc_of_shr_record round_nearest_even].
      fold d in Hd.
      assert (Hm24 : (Z.pos m < 2 ^ 24)%Z).
      { eapply Z.lt_le_trans; [exact Hdhi|].
        apply Z.pow_le_mono_r; lia. }
      split; [lia|]. split; [exact He|]. split.
      + replace (F2R (Z.pos m) e - F2R (Z.pos m) e)%R with 0%R by lra.
        rewrite Rabs_R0. lra.
      + split; [lia|]. cbn [Zdigits2]. fold d. lia.
    - fold d in He1.
      assert (Hn : (0 < e1 - e)%Z) by lia.
      assert (Hm1lt : (shr_m mrs < 2 ^ 24)%Z).
      { rewrite Hm1. apply Z.div_lt_upper_bound; [apply Z.pow_pos_nonneg; lia|].
        rewrite <- Z.pow_add_r by lia.
        eapply Z.lt_le_trans; [exact Hdhi|]. apply Z.pow_le_mono_r; lia. }
      assert (Hm1ge : (0 <= shr_m mrs)%Z).
      { rewrite Hm1. apply Z.div_pos; [lia|apply Z.pow_pos_nonneg; lia]. }
      pose proof (F2R_div_bracket (Z.pos m) e (e1 - e) ltac:(lia) Hn)
        as [Hblo Hbhi].
      rewrite <- Hm1 in Hblo, Hbhi.
      replace (e + (e1 - e))%Z with e1 in Hblo, Hbhi by lia.
      rewrite F2R_plus, F2R_bpow in Hbhi.
      assert (Hulp : (bpow e1 <= F2R (Z.pos m) e / 8388608 + bpow (-149))%R).
      { destruct (Z.max_spec (d + e - 24) (-149)) as [[_ Hmax]|[_ Hmax]];
          rewrite Hmax in He1.
        - rewrite He1. lra.
        - replace (d - 1 + e)%Z with (e1 + 23)%Z in Hxlo by lia.
          rewrite bpow_add in Hxlo.
          rewrite (bpow_IZR 23) in Hxlo by lia.
          change (2 ^ 23)%Z with 8388608%Z in Hxlo.
          pose proof (bpow_pos e1). lra. }
      assert (Hm2 : m2 = shr_m mrs \/ m2 = (shr_m mrs + 1)%Z)
        by apply round_nearest_even_cases.
      split; [lia|]. split; [lia|]. split.
      + apply Rabs_le. pose proof (bpow_pos e1).
        destruct Hm2 as [->| ->]; [|rewrite F2R_plus, F2R_bpow]; lra.
      + split; lia. }
  destruct Hfacts as (Hm2 & He1 & Herr & He104 & He103).
  destruct (shr_fexp_second m2 e1 mrs2 e2 Hm2 He1 H2)
    as (Hval & Hpos & He2 & Hcase).
  assert (He2' : (e2 <= 104)%Z).
  { destruct Hcase as [->|Hd25]; [exact He104|]. specialize (He103 Hd25). lia. }
  destruct (shr_m mrs2) as [|m3|m3] eqn:Hm3; [| |lia].
  - split; [reflexivity|]. cbn [f32_real]. rewrite F2R_0 in Hval.
    rewrite <- Hval in Herr. rewrite F2R_cond_Zopp.
    destruct s; [|exact Herr].
    replace (0 - - F2R (Z.pos m) e)%R with (- (0 - F2R (Z.pos m) e))%R by lra.
    now rewrite Rabs_Ropp.
  - replace (e2 <=? 128 - 24)%Z with true by (symmetry; apply Z.leb_le; lia).
    split; [reflexivity|]. cbn [f32_real]. rewrite !F2R_cond_Zopp, Hval.
    destruct s; [|exact Herr].
    replace (- F2R m2 e1 - - F2R (Z.pos m) e)%R
      with (- (F2R m2 e1 - F2R (Z.pos m) e))%R by lra.
    now rewrite Rabs_Ropp.
Qed.

Lemma shl_align_down m e e' :
  (e' <= e)%Z ->
  exists mz, shl_align m e e' = (mz, e') /\ F2R (Z.pos mz) e' = F2R (Z.pos m) e.
Proof.
  intros Hle. unfold shl_align.
  destruct (e' - e)%Z as [|k|k] eqn:Hk; try lia.
  - assert (e' = e) by lia. subst e'. exists m. split; reflexivity.
  - exists (shift_pos k m). split; [reflexivity|].
    rewrite shift_pos_correct. change (Z.pow_pos 2 k) with (2 ^ Z.pos k)%Z.
    rewrite Z.mul_comm, F2R_shift by lia. f_equal. lia.
Qed.

Lemma shl_align_value m e e' :
  F2R (Z.pos (fst (shl_align m e e'))) (snd (shl_align m e e'))
  = F2R (Z.pos m) e /\
  (snd (shl_align m e e') <= e)%Z /\
  (snd (shl_align m e e') <= e')%Z.
Proof.
  destruct (Z_le_gt_dec e' e) as [Hle|Hgt].
  - destruct (shl_align_down m e e' Hle) as (mz & -> & Hv).
    cbn [fst snd]. split; [exact Hv|]. lia.
  - unfold shl_align. destruct (e' - e)%Z as [|k|k] eqn:Hk; try lia.
    cbn [fst snd]. split; [reflexivity|]. lia.
Qed.

Lemma binary_round_correct s m e :
  (F2R (Z.pos m) e < bpow 127)%R ->
  f32_finite (binary_round 24 128 s m e) = true /\
  (Rabs (f32_real (binary_round 24 128 s m e) - F2R (cond_Zopp s (Z.pos m)) e)
   <= F2R (Z.pos m) e / 8388608 + bpow (-149))%R.
Proof.
  intros Hx. unfold binary_round.
  pose proof (F2R_ge_bpow m e) as Hxlo.
  assert (Hde : (Z.pos (digits2_pos m) + e <= 127)%Z).
  { assert (Z.pos (digits2_pos m) - 1 + e < 127)%Z
      by (apply bpow_lt_inv; lra). lia. }
  set (E := fexp 24 128 (Z.pos (digits2_pos m) + e)).
  assert (HE : (E <= 103)%Z).
  { unfold E, fexp. change (emin 24 128) with (-149)%Z. lia. }
  destruct (shl_align_value m e E) as (Hv & Hle & HleE).
  destruct (shl_align m e E) as [mz ez]. cbn [fst snd] in *.
  assert (Hez : (ez <= 104)%Z) by lia.
  destruct (binary_round_aux_correct s mz ez) as [Hfin Herr];
    [now rewrite Hv | now left |].
  split; [exact Hfin|].
  rewrite !F2R_cond_Zopp in *. rewrite Hv in Herr. exact Herr.
Qed.

Lemma binary_normalize_correct M e b :
  (Rabs (F2R M e) < bpow 127)%R ->
  f32_finite (binary_normalize 24 128 M e b) = true /\
  (Rabs (f32_real (binary_normalize 24 128 M e b) - F2R M e)
   <= Rabs (F2R M e) / 8388608 + bpow (-149))%R.
Proof.
  intros Hx. pose proof (bpow_pos (-149)).
  destruct M as [|m|m]; cbn [binary_normalize].
  - split; [reflexivity|]. cbn [f32_real]. rewrite F2R_0.
    replace (0 - 0)%R with 0%R by lra. rewrite Rabs_R0. lra.
  - assert (Hpos : (0 < F2R (Z.pos m) e)%R).
    { rewrite <- (F2R_0 e). apply F2R_lt. lia. }
    rewrite (Rabs_pos_eq (F2R (Z.pos m) e)) in Hx |- * by lra.
    exact (binary_round_correct false m e Hx).
  - assert (Hpos : (0 < F2R (Z.pos m) e)%R).
    { rewrite <- (F2R_0 e). apply F2R_lt. lia. }
    change (Z.neg m) with (- Z.pos m)%Z in Hx |- *.
    rewrite F2R_opp in Hx |- *.
    rewrite Rabs_Ropp, (Rabs_pos_eq (F2R (Z.pos m) e)) in Hx |- * by lra.
    destruct (binary_round_correct true m e Hx) as [Hfin Herr].
    split; [exact Hfin|]. rewrite F2R_cond_Zopp in Herr. exact Herr.
Qed.

(** The exact sum and difference of two finite floats, as an integer at
    the smaller exponent. *)
Lemma aligned_value s m e ez :
  (ez <= e)%Z ->
  F2R (cond_Zopp s (Z.pos (fst (shl_align m e ez)))) ez
  = f32_real (S754_finite s m e).
Proof.
  intros Hle. destruct (shl_align_down m e ez Hle) as (mz & -> & Hv).
  cbn [fst f32_real]. now rewrite !F2R_cond_Zopp, Hv.
Qed.

Lemma f32_add_correct x y :
  f32_finite x = true -> f32_finite y = true ->
  (Rabs (f32_real x + f32_real y) < bpow 127)%R ->
  f32_finite (SFadd 24 128 x y) = true /\
  (Rabs (f32_real (SFadd 24 128 x y) - (f32_real x + f32_real y))
   <= Rabs (f32_real x + f32_real y) / 8388608 + bpow (-149))%R.
Proof.
  intros Hx Hy Hb. pose proof (bpow_pos (-149)) as Heta.
  assert (Hexact : forall z v : R, z = v ->
            (Rabs (z - v) <= Rabs v / 8388608 + bpow (-149))%R).
  { intros z v ->. replace (v - v)%R with 0%R by lra. rewrite Rabs_R0.
    pose proof (Rabs_pos v). lra. }
  destruct x as [sx|sx| |sx mx ex], y as [sy|sy| |sy my ey];
    try discriminate; cbn [SFadd].
  - split; [destruct sx, sy; reflexivity|].
    apply Hexact. destruct sx, sy; cbn [f32_real]; lra.
  - split; [reflexivity|]. apply Hexact. cbn [f32_real]. lra.
  - split; [reflexivity|]. apply Hexact. cbn [f32_real]. lra.
  - rewrite <- (aligned_value sx mx ex (Z.min ex ey)) in * by lia.
    rewrite <- (aligned_value sy my ey (Z.min ex ey)) in * by lia.
    rewrite <- F2R_plus in *.
    now apply binary_normalize_correct.
Qed.

Lemma f32_sub_correct x y :
  f32_finite x = true -> f32_finite y = true ->
  (Rabs (f32_real x - f32_real y) < bpow 127)%R ->
  f32_finite (SFsub 24 128 x y) = true /\
  (Rabs (f32_real (SFsub 24 128 x y) - (f32_real x - f32_real y))
   <= Rabs (f32_real x - f32_real y) / 8388608 + bpow (-149))%R.
Proof.
  intros Hx Hy Hb. pose proof (bpow_pos (-149)) as Heta.
  assert (Hexact : forall z v : R, z = v ->
            (Rabs (z - v) <= Rabs v / 8388608 + bpow (-149))%R).
  { intros z v ->. replace (v - v)%R with 0%R by lra. rewrite Rabs_R0.
    pose proof (Rabs_pos v). lra. }
  destruct x as [sx|sx| |sx mx ex], y as [sy|sy| |sy my ey];
    try discriminate; cbn [SFsub].
  - split; [destruct sx, sy; reflexivity|].
    apply Hexact. destruct sx, sy; cbn [f32_real]; lra.
  - split; [reflexivity|]. apply Hexact. cbn [f32_real].
    rewrite !F2R_cond_Zopp. destruct sy; cbn [negb]; lra.
  - split; [reflexivity|]. apply Hexact. cbn [f32_real]. lra.
  - rewrite <- (aligned_value sx mx ex (Z.min ex ey)) in * by lia.
    rewrite <- (aligned_value sy my ey (Z.min ex ey)) in * by lia.
    replace (F2R (cond_Zopp sx (Z.pos (fst (shl_align mx ex (Z.min ex ey)))))
               (Z.min ex ey)
             - F2R (cond_Zopp sy (Z.pos (fst (shl_align my ey (Z.min ex ey)))))
                 (Z.min ex ey))%R
      with (F2R (cond_Zopp sx (Z.pos (fst (shl_align mx ex (Z.min ex ey))))
                 - cond_Zopp sy (Z.pos (fst (shl_align my ey (Z.min ex ey)))))
              (Z.min ex ey)) in *
      by (unfold Z.sub; rewrite F2R_plus, F2R_opp; lra).
    now apply binary_normalize_correct.
Qed.

(** A float in canonical form: the mantissa has 24 digits, or the exponent
    is the least one. *)
Lemma valid_binary_canonical s m e :
  valid_binary 24 128 (S754_finite s m e) = true ->
  (e <= 104)%Z /\ (Z.pos (digits2_pos m) = 24 \/ e = -149)%Z.
Proof.
  cbn [valid_binary]. unfold bounded, canonical_mantissa, fexp.
  change (emin 24 128) with (-149)%Z.
  intros H. apply andb_prop in H as [Hc Hb].
  apply Z.eqb_eq in Hc. apply Z.leb_le in Hb. lia.
Qed.

Lemma f32_mul_correct x y :
  valid_binary 24 128 x = true -> valid_binary 24 128 y = true ->
  f32_finite x = true -> f32_finite y = true ->
  (Rabs (f32_real x * f32_real y) < bpow 127)%R ->
  f32_finite (SFmul 24 128 x y) = true /\
  (Rabs (f32_real (SFmul 24 128 x y) - f32_real x * f32_real y)
   <= Rabs (f32_real x * f32_real y) / 8388608 + bpow (-149))%R.
Proof.
  intros Vx Vy Hx Hy Hb. pose proof (bpow_pos (-149)) as Heta.
  assert (Hzero : forall v : R, v = 0%R ->
            (Rabs (0 - v) <= Rabs v / 8388608 + bpow (-149))%R).
  { intros v ->. replace (0 - 0)%R with 0%R by lra. rewrite Rabs_R0. lra. }
  destruct x as [sx|sx| |sx mx ex], y as [sy|sy| |sy my ey];
    try discriminate; cbn [SFmul];
    try (split; [reflexivity|]; apply Hzero; cbn [f32_real]; lra).
  destruct (valid_binary_canonical _ _ _ Vx) as [Hex Hcx].
  destruct (valid_binary_canonical _ _ _ Vy) as [Hey Hcy].
  assert (Hprod : (f32_real (S754_finite sx mx ex) * f32_real (S754_finite sy my ey)
                   = F2R (cond_Zopp (xorb sx sy) (Z.pos (mx * my))) (ex + ey))%R).
  { cbn [f32_real]. rewrite !F2R_cond_Zopp, Pos2Z.inj_mul, F2R_mult.
    destruct sx, sy; cbn [xorb]; lra. }
  assert (Habs : (Rabs (f32_real (S754_finite sx mx ex) * f32_real (S754_finite sy my ey))
                  = F2R (Z.pos (mx * my)) (ex + ey))%R).
  { assert (Hpos : (0 < F2R (Z.pos (mx * my)) (ex + ey))%R).
    { rewrite <- (F2R_0 (ex + ey)). apply F2R_lt. lia. }
    rewrite Hprod, F2R_cond_Zopp.
    destruct (xorb sx sy); [rewrite Rabs_Ropp|]; apply Rabs_pos_eq; lra. }
  rewrite Habs in *. rewrite Hprod.
  apply binary_round_aux_correct; [exact Hb|].
  destruct Hcx as [Hdx|Hexm]; [|left; lia].
  destruct Hcy as [Hdy|Heym]; [|left; lia].
  right.
  pose proof (digits2_pos_bounds mx) as [Hxlo _].
  pose proof (digits2_pos_bounds my) as [Hylo _].
  pose proof (digits2_pos_bounds (mx * my)) as [_ Hhi].
  rewrite Hdx in Hxlo. rewrite Hdy in Hylo.
  change (2 ^ (24 - 1))%Z with 8388608%Z in Hxlo, Hylo.
  assert (Hlt : (2 ^ 24 < 2 ^ Z.pos (digits2_pos (mx * my)))%Z).
  { eapply Z.le_lt_trans; [|exact Hhi]. rewrite Pos2Z.inj_mul.
    change (2 ^ 24)%Z with 16777216%Z. nia. }
  apply Z.pow_lt_mono_r_iff in Hlt; lia.
Qed.

(** ** One entry of the simulator *)

Lemma bpow_opp k : bpow (- k) = (/ bpow k)%R.
Proof. unfold bpow. apply powerRZ_neg'. Qed.

Lemma f32_real_one : f32_real (f32_of_float py_1_0) = 1%R.
Proof.
  change (f32_of_float py_1_0) with (S754_finite false 8388608 (-23)).
  cbn [f32_real cond_Zopp]. unfold F2R.
  change (-23)%Z with (Z.opp 23). rewrite bpow_opp, (bpow_IZR 23) by lia.
  change (2 ^ 23)%Z with 8388608%Z. lra.
Qed.

Lemma f32_real_tenth :
  f32_real (f32_of_float py_0_1) = (13421773 / 134217728)%R.
Proof.
  change (f32_of_float py_0_1) with (S754_finite false 13421773 (-27)).
  cbn [f32_real cond_Zopp]. unfold F2R.
  change (-27)%Z with (Z.opp 27). rewrite bpow_opp, (bpow_IZR 27) by lia.
  change (2 ^ 27)%Z with 134217728%Z. lra.
Qed.

Lemma eta_small : (0 < bpow (-149) <= / 10 ^ 40)%R.
Proof.
  split; [apply bpow_pos|].
  change (-149)%Z with (Z.opp 149). rewrite bpow_opp, (bpow_IZR 149) by lia.
  apply Rinv_le_contravar; [apply pow_lt; lra|].
  rewrite (pow_IZR 10 40). apply IZR_le. now vm_compute.
Qed.

Lemma bpow_127 : bpow 127 = (128 * bpow 120)%R.
Proof.
  change 127%Z with (7 + 120)%Z. rewrite bpow_add, (bpow_IZR 7) by lia.
  reflexivity.
Qed.

Lemma bpow_120 : bpow 120 = (1048576 * bpow 100)%R.
Proof.
  change 120%Z with (20 + 100)%Z. rewrite bpow_add, (bpow_IZR 20) by lia.
  reflexivity.
Qed.

Lemma Rabs_bounds x : (- Rabs x <= x <= Rabs x)%R.
Proof. unfold Rabs. destruct (Rcase_abs x); lra. Qed.

Lemma Rabs_le_inv x b : (Rabs x <= b)%R -> (- b <= x <= b)%R.
Proof. pose proof (Rabs_bounds x). lra. Qed.

(** The outcome of a rounded operation, in the form the bounds below use. *)
Lemma rounded_within z exact bnd :
  (Rabs (z - exact) <= Rabs exact / 8388608 + bpow (-149))%R ->
  (Rabs exact <= bnd)%R ->
  (exact - (bnd / 8388608 + / 10 ^ 40) <= z
   <= exact + (bnd / 8388608 + / 10 ^ 40))%R.
Proof.
  intros H Hb. apply Rabs_le_inv in H. pose proof eta_small. lra.
Qed.


Lemma f32_entry_bound t e :
  f32_finite t = true -> f32_number e ->
  (Rabs (f32_real t) <= bpow 120)%R -> (Rabs (f32_real e) <= bpow 120)%R ->
  f32_finite (f32_entry t e) = true /\
  (Rabs (f32_real (f32_entry t e) - (f32_real t + 1.0 + 0.1 * f32_real e))
   <= 0.0000005 * (Rabs (f32_real t) + 1 + Rabs (f32_real e)))%R.
Proof.
  intros Ft [Fe Ve] Bt Be. unfold f32_entry, f32_add, f32_mul.
  pose proof (Rabs_bounds (f32_real t)) as Ht.
  pose proof (Rabs_bounds (f32_real e)) as He.
  pose proof (bpow_ge_1 120 ltac:(lia)) as H120.
  assert (Hten : (/ 10 ^ 40 <= 1 / 10000000000)%R).
  { apply Rle_trans with (/ 10 ^ 10)%R.
    - apply Rinv_le_contravar; [apply pow_lt; lra|].
      apply Rle_pow; [lra|lia].
    - simpl. lra. }
  (* theta + 1.0 *)
  destruct (f32_add_correct t (f32_of_float py_1_0) Ft eq_refl) as [Fa Ea].
  { rewrite f32_real_one, bpow_127. apply Rabs_def1; lra. }
  rewrite f32_real_one in Ea.
  apply (rounded_within _ _ (Rabs (f32_real t) + 1)) in Ea;
    [|apply Rabs_le; lra].
  (* eps * 0.1 *)
  destruct (f32_mul_correct e (f32_of_float py_0_1) Ve eq_refl Fe eq_refl)
    as [Fp Ep].
  { rewrite f32_real_tenth, bpow_127. apply Rabs_def1; lra. }
  rewrite f32_real_tenth in Ep.
  apply (rounded_within _ _ (Rabs (f32_real e) * (13421773 / 134217728))) in Ep;
    [|apply Rabs_le; lra].
  (* the sum *)
  destruct (f32_add_correct _ _ Fa Fp) as [Fv Ev].
  { rewrite bpow_127. apply Rabs_def1; lra. }
  split; [exact Fv|].
  apply (rounded_within _ _
           (1.001 * (Rabs (f32_real t) + 1 + Rabs (f32_real e)))) in Ev;
    [|apply Rabs_le; lra].
  apply Rabs_le. lra.
Qed.

(** ** Broadcasting into a shape of as many entries *)

Lemma broadcast_dim_cases d1 d2 d :
  broadcast_dim d1 d2 = Some d ->
  (d1 = d \/ d1 = 1) /\ (d2 = d \/ d2 = 1) /\ broadcast_dim d d1 = Some d.
Proof.
  unfold broadcast_dim.
  destruct (d1 =? d2) eqn:E12.
  - apply Nat.eqb_eq in E12. intros [= <-]. rewrite Nat.eqb_refl. auto.
  - destruct (d1 =? 1) eqn:E1.
    + apply Nat.eqb_eq in E1. intros [= <-]. subst d1.
      rewrite Nat.eqb_sym, E12. simpl. auto.
    + destruct (d2 =? 1) eqn:E2; [|discriminate].
      apply Nat.eqb_eq in E2. intros [= <-]. rewrite Nat.eqb_refl. auto.
Qed.

Lemma broadcast_dims_expands a b s :
  broadcast_dims a b = Some s ->
  expands a s /\ expands b s /\ broadcast_dims s a = Some s.
Proof.
  revert b s. induction a as [|d1 a IH]; intros [|d2 b] s; simpl;
    try discriminate.
  - intros [= <-]. repeat split; constructor.
  - destruct (broadcast_dim d1 d2) as [d|] eqn:Ed; [|discriminate].
    destruct (broadcast_dims a b) as [r|] eqn:Er; [|discriminate].
    intros [= <-]. destruct (broadcast_dim_cases _ _ _ Ed) as (H1 & H2 & H3).
    destruct (IH _ _ Er) as (I1 & I2 & I3).
    repeat split; try (constructor; assumption).
    simpl. now rewrite H3, I3.
Qed.

Lemma numel_pad r s : numel (pad_shape r s) = numel s.
Proof.
  unfold pad_shape. induction (r - length s) as [|n IH]; [reflexivity|].
  simpl. rewrite IH. lia.
Qed.

Lemma length_pad r s : length (pad_shape r s) = r `max` length s.
Proof. unfold pad_shape. rewrite length_app, length_replicate. lia. Qed.

Lemma length_concat_uniform {A} n (l : list (list A)) :
  Forall (fun c => length c = n) l -> length (concat l) = length l * n.
Proof.
  induction 1 as [|c l Hc _ IH]; [reflexivity|].
  simpl. rewrite length_app. lia.
Qed.

Lemma length_chunks {A} size count (d : list A) :
  length (chunks size count d) = count.
Proof. unfold chunks. now rewrite length_map, length_seq. Qed.

Lemma length_expand {A} from to (d : list A) :
  expands from to -> length d = numel from ->
  length (expand from to d) = numel to.
Proof.
  intros H. revert d. induction H as [|f t from to Hft _ IH]; intros d Hd.
  - exact Hd.
  - cbn [expand]. destruct (f =? t) eqn:E.
    + apply Nat.eqb_eq in E. subst t.
      rewrite (length_concat_uniform (numel to)).
      * rewrite length_map, length_chunks. reflexivity.
      * apply Forall_fmap. eapply Forall_impl.
        -- apply chunks_length. exact Hd.
        -- intros c Hc. simpl. now apply IH.
    + destruct Hft as [->| ->]; [now rewrite Nat.eqb_refl in E|].
      rewrite (length_concat_uniform (numel to)).
      * now rewrite length_replicate.
      * apply Forall_replicate. apply IH. simpl in Hd. lia.
Qed.

Lemma expands_numel from to :
  expands from to -> numel to <> 0 ->
  numel from <= numel to /\ (numel from = numel to -> from = to).
Proof.
  induction 1 as [|f t from to Hft _ IH]; intros Hn; [auto|].
  change (numel (t :: to)) with (t * numel to) in *.
  change (numel (f :: from)) with (f * numel from).
  assert (Ht : t <> 0) by (intros Z; apply Hn; rewrite Z; lia).
  assert (Hto : numel to <> 0) by (intros Z; apply Hn; rewrite Z; lia).
  destruct (IH Hto) as [IH1 IH2].
  revert IH1 IH2 Hto. generalize (numel to) (numel from). intros nt nf IH1 IH2 Hto.
  destruct Hft as [->| ->].
  - split; [nia|]. intros E. f_equal. apply IH2. nia.
  - split; [nia|]. intros E.
    assert (t = 1) by (destruct t as [|[|t]]; [lia|reflexivity|nia]).
    subst t. f_equal. apply IH2. lia.
Qed.

Lemma expand_same_numel {A} from to (d : list A) :
  expands from to -> length d = numel from -> numel to = numel from ->
  expand from to d = d.
Proof.
  intros H Hd Hn. destruct (Nat.eq_dec (numel to) 0) as [Z|NZ].
  - pose proof (length_expand _ _ d H Hd) as L.
    rewrite Z in L. apply nil_length_inv in L. rewrite L.
    symmetry. apply nil_length_inv. lia.
  - destruct (expands_numel _ _ H NZ) as [_ E].
    rewrite (E (eq_sym Hn)) in *. now apply expand_refl.
Qed.

(** Two shapes whose broadcast [s] has as many entries as the first: the
    entries of a tensor of the first shape are not repeated, and [s]
    broadcast with the first shape is [s] again. *)
Lemma broadcast_shapes_into s1 s2 s :
  broadcast_shapes s1 s2 = Some s -> numel s = numel s1 ->
  broadcast_shapes s s1 = Some s /\
  expands (pad_shape (length s) s2) s /\
  forall A (d : list A),
    length d = numel s1 -> expand (pad_shape (length s) s1) s d = d.
Proof.
  unfold broadcast_shapes. intros H Hn.
  destruct (broadcast_dims_expands _ _ _ H) as (E1 & E2 & E3).
  pose proof (Forall2_length _ _ _ E1) as L1. rewrite length_pad in L1.
  assert (Ls : length s = length s1 `max` length s2) by lia.
  rewrite Ls.
  replace ((length s1 `max` length s2) `max` length s1)
    with (length s1 `max` length s2) by lia.
  replace (pad_shape (length s1 `max` length s2) s) with s
    by (rewrite <- Ls; symmetry; apply pad_shape_self).
  repeat split; try assumption.
  intros A d Hd. apply expand_same_numel; [assumption| |];
    rewrite numel_pad; congruence.
Qed.

(** ** Operations on float32 tensors *)

Lemma pointwise_f32_same_shape op a b :
  wf_f32 a -> wf_f32 b -> shape_f32 b = shape_f32 a ->
  pointwise_f32 op a b =
    Some (TensorF32 (shape_f32 a) (zip_with op (data_f32 a) (data_f32 b))).
Proof.
  unfold wf_f32, pointwise_f32, expand_to_f32. intros Ha Hb Hs.
  rewrite Hs, broadcast_shapes_refl, !pad_shape_self.
  rewrite !expand_refl by congruence. reflexivity.
Qed.

Lemma pointwise_f32_onto op a b :
  wf_f32 a -> wf_f32 b ->
  broadcast_shapes (shape_f32 a) (shape_f32 b) = Some (shape_f32 a) ->
  numel (shape_f32 b) = numel (shape_f32 a) ->
  pointwise_f32 op a b =
    Some (TensorF32 (shape_f32 a) (zip_with op (data_f32 a) (data_f32 b))).
Proof.
  unfold wf_f32, pointwise_f32. intros Ha Hb Hs Hn. rewrite Hs.
  unfold expand_to_f32. rewrite pad_shape_self, expand_refl by exact Ha.
  unfold broadcast_shapes in Hs.
  destruct (broadcast_dims_expands _ _ _ Hs) as (E1 & E2 & _).
  pose proof (Forall2_length _ _ _ E1) as L1.
  rewrite length_pad in L1.
  assert (R : length (shape_f32 a) `max` length (shape_f32 b)
              = length (shape_f32 a)) by lia.
  rewrite R in E2.
  rewrite expand_same_numel; [reflexivity|exact E2| |];
    rewrite numel_pad; congruence.
Qed.

Lemma length_request g n : length (request g n) = n.
Proof. unfold request. now rewrite length_map, length_seq. Qed.

(** The tensor the float32 simulator computes. *)
Lemma simulator_f32_returns theta g :
  wf_f32 theta ->
  simulator_f32 theta g =
    Returned
      (TensorF32 (shape_f32 theta)
         (zip_with f32_entry (data_f32 theta)
            (request g (numel (shape_f32 theta)))))
      (after_request g (numel (shape_f32 theta))).
Proof.
  intros Hwf. unfold simulator_f32, bind, randn_like_f32, tensor_add_f32.
  rewrite pointwise_f32_same_shape.
  - simpl. change (map ?f ?l) with (f <$> l).
    now rewrite zip_with_fmap_l, zip_with_fmap_r.
  - unfold wf_f32. simpl. now rewrite length_map.
  - unfold wf_f32. simpl. now rewrite length_map, length_request.
  - reflexivity.
Qed.

Lemma simulator_f32_wf theta :
  wf_f32 theta ->
  forall g, wf_f32 (TensorF32 (shape_f32 theta)
              (zip_with f32_entry (data_f32 theta)
                 (request g (numel (shape_f32 theta))))).
Proof.
  unfold wf_f32. intros H g. simpl.
  rewrite length_zip_with, length_request. lia.
Qed.

(** ** The float32 simulator: entries *)

Lemma f32_real_neg_exp s m p :
  f32_real (S754_finite s m (Z.neg p))
  = (IZR (cond_Zopp s (Z.pos m)) / IZR (2 ^ Z.pos p))%R.
Proof.
  cbn [f32_real]. unfold F2R.
  change (Z.neg p) with (Z.opp (Z.pos p)).
  rewrite bpow_opp, bpow_IZR by lia. reflexivity.
Qed.

(** The real numbers the example inputs and outputs stand for. *)
Ltac f32_values :=
  unfold f32_minus_two, f32_zero, f32_half, f32_one, f32_three_halves,
    f32_four;
  rewrite ?f32_real_neg_exp; cbn [f32_real cond_Zopp]; rewrite ?opp_IZR;
  repeat match goal with
         | |- context [IZR (2 ^ Z.pos ?p)] =>
             let v := eval vm_compute in (2 ^ Z.pos p)%Z in
             change (2 ^ Z.pos p)%Z with v
         end.

Lemma f32_real_examples :
  f32_real f32_minus_two = (-2)%R /\ f32_real f32_zero = 0%R /\
  f32_real f32_half = 0.5%R /\ f32_real f32_one = 1%R /\
  f32_real f32_three_halves = 1.5%R /\ f32_real f32_four = 4%R.
Proof. f32_values. repeat split; lra. Qed.

Lemma bpow_100_ge_4 : (4 <= bpow 100)%R.
Proof.
  replace 4%R with (bpow 2) by (rewrite (bpow_IZR 2) by lia; reflexivity).
  apply bpow_le. lia.
Qed.

Lemma bpow_100_le_120 : (bpow 100 <= bpow 120)%R.
Proof. apply bpow_le. lia. Qed.

Lemma lookup_request g n k :
  k < n -> request g n !! k = Some (g [n] k).
Proof.
  intros Hk. unfold request. change (map ?f ?l) with (f <$> l).
  now rewrite list_lookup_fmap, lookup_seq_lt.
Qed.

(** The simulator does not return theta + 1.0 + 0.1 * eps: at theta = -2
    with the draw 4 it returns -10066330 / 2^24 = -0.60000002..., not
    -0.6. *)
Lemma simulator_f32_is_not_exact :
  simulator_f32 (single f32_minus_two) (steady_f32 f32_four)
  = Returned (single (S754_finite true 10066330 (-24))) (steady_f32 f32_four)
  /\ request (steady_f32 f32_four) 1 = [f32_four]
  /\ f32_real (S754_finite true 10066330 (-24))
     <> (f32_real f32_minus_two + 1.0 + 0.1 * f32_real f32_four)%R.
Proof.
  split; [vm_compute; reflexivity|]. split; [reflexivity|].
  f32_values. lra.
Qed.

(** C1.  For every float32 tensor theta and every state of the generator
    the simulator returns a tensor of theta's shape whose entry [k] is
    [theta_k + 1.0 + eps_k * 0.1] as float32 computes it, [eps] being the
    draws the generator hands out: 0.1 is rounded to float32, and the
    product and the two sums are each rounded to the nearest float32.
    When [theta_k] and [eps_k] are finite numbers of magnitude at most
    2^100, that entry is finite and differs from the real number
    [theta_k + 1.0 + 0.1 * eps_k] by at most
    [0.0000005 * (|theta_k| + 1 + |eps_k|)]. *)
Theorem simulator_f32_is_rounded_shift_plus_noise theta g k t :
  wf_f32 theta -> data_f32 theta !! k = Some t ->
  exists x e,
    simulator_f32 theta g
    = Returned x (after_request g (numel (shape_f32 theta))) /\
    shape_f32 x = shape_f32 theta /\
    request g (numel (shape_f32 theta)) !! k = Some e /\
    data_f32 x !! k
    = Some (f32_add (f32_add t (f32_of_float py_1_0))
              (f32_mul e (f32_of_float py_0_1))) /\
    (f32_finite t = true -> f32_number e ->
     (Rabs (f32_real t) <= bpow 100)%R -> (Rabs (f32_real e) <= bpow 100)%R ->
     f32_finite (f32_add (f32_add t (f32_of_float py_1_0))
                   (f32_mul e (f32_of_float py_0_1))) = true /\
     (Rabs (f32_real (f32_add (f32_add t (f32_of_float py_1_0))
                        (f32_mul e (f32_of_float py_0_1)))
            - (f32_real t + 1.0 + 0.1 * f32_real e))
      <= 0.0000005 * (Rabs (f32_real t) + 1 + Rabs (f32_real e)))%R).
Proof.
  intros Hwf Hk.
  assert (Hn : k < numel (shape_f32 theta)).
  { apply lookup_lt_Some in Hk. unfold wf_f32 in Hwf. lia. }
  eexists _, _. split; [now apply simulator_f32_returns|].
  split; [reflexivity|]. split; [now apply lookup_request|]. split.
  - cbn [data_f32]. rewrite lookup_zip_with, Hk. simpl.
    rewrite lookup_request by exact Hn. reflexivity.
  - intros Ft Ne Bt Be. pose proof bpow_100_le_120.
    apply f32_entry_bound; try assumption; lra.
Qed.

Lemma simulator_f32_is_rounded_shift_plus_noise_witness :
  wf_f32 (single f32_minus_two) /\
  data_f32 (single f32_minus_two) !! 0 = Some f32_minus_two /\
  exists x e,
    simulator_f32 (single f32_minus_two) (steady_f32 f32_four)
    = Returned x (steady_f32 f32_four) /\
    shape_f32 x = [1] /\
    request (steady_f32 f32_four) 1 !! 0 = Some e /\
    data_f32 x !! 0 = Some (S754_finite true 10066330 (-24)) /\
    (Rabs (f32_real (S754_finite true 10066330 (-24)) - (-2 + 1.0 + 0.1 * 4))
     <= 0.0000005 * (2 + 1 + 4))%R.
Proof.
  split; [reflexivity|]. split; [reflexivity|].
  destruct (simulator_f32_is_rounded_shift_plus_noise
              (single f32_minus_two) (steady_f32 f32_four) 0 f32_minus_two
              eq_refl eq_refl) as (x & e & H1 & H2 & H3 & H4 & H5).
  exists x, e. split; [exact H1|]. split; [exact H2|]. split; [exact H3|].
  assert (He : e = f32_four) by (injection H3 as <-; reflexivity).
  subst e. split; [exact H4|].
  destruct f32_real_examples as (Em2 & _ & _ & _ & _ & E4).
  pose proof bpow_100_ge_4 as B.
  destruct H5 as [_ H5].
  - reflexivity.
  - split; reflexivity.
  - rewrite Em2. replace (Rabs (-2)) with 2%R; [lra|].
    rewrite Rabs_left; lra.
  - rewrite E4. rewrite Rabs_pos_eq; lra.
  - rewrite Em2, E4 in H5.
    replace (Rabs (-2)) with 2%R in H5 by (rewrite Rabs_left; lra).
    rewrite (Rabs_pos_eq 4) in H5 by lra. exact H5.
Defined.

(** ** The float32 simulator: a bounded draw *)

(** With theta = 0 and the draw 1, of magnitude at most c = 1, the
    simulator returns 9227469 / 2^23 = 1.10000002..., which is farther
    than 0.1 * c from theta + 1. *)
Lemma simulator_f32_exceeds_noise_bound :
  simulator_f32 (triple f32_zero) (steady_f32 f32_one)
  = Returned (triple (S754_finite false 9227469 (-23))) (steady_f32 f32_one)
  /\ request (steady_f32 f32_one) 3 = [f32_one; f32_one; f32_one]
  /\ (-2 <= f32_real f32_zero <= 2)%R
  /\ (Rabs (f32_real f32_one) <= 1)%R
  /\ (0.1 * 1
      < Rabs (f32_real (S754_finite false 9227469 (-23))
              - (f32_real f32_zero + 1)))%R.
Proof.
  split; [vm_compute; reflexivity|]. split; [reflexivity|].
  f32_values. split; [lra|]. split.
  - rewrite Rabs_pos_eq; lra.
  - rewrite Rabs_pos_eq; lra.
Qed.

(** C8.  For every float32 tensor theta with entries in [-2, 2] and every
    c up to 2^100: whenever every draw is a float32 number of magnitude at
    most c, every entry of the simulator's output is finite, differs from
    the corresponding entry of theta + 1 by at most
    [0.1 * c + 0.0000005 * (3 + c)], and so lies between
    [-1 - 0.1 * c - 0.0000005 * (3 + c)] and
    [3 + 0.1 * c + 0.0000005 * (3 + c)]. *)
Theorem simulator_f32_within_noise_bound theta g c :
  wf_f32 theta ->
  Forall (fun t => f32_finite t = true /\ (-2 <= f32_real t <= 2)%R)
    (data_f32 theta) ->
  Forall (fun e => f32_number e /\ (Rabs (f32_real e) <= c)%R)
    (request g (numel (shape_f32 theta))) ->
  (c <= bpow 100)%R ->
  exists x g',
    simulator_f32 theta g = Returned x g' /\
    shape_f32 x = shape_f32 theta /\
    forall k t,
      data_f32 theta !! k = Some t ->
      exists v,
        data_f32 x !! k = Some v /\
        f32_finite v = true /\
        (Rabs (f32_real v - (f32_real t + 1))
         <= 0.1 * c + 0.0000005 * (3 + c))%R /\
        (-1 - (0.1 * c + 0.0000005 * (3 + c)) <= f32_real v
         <= 3 + (0.1 * c + 0.0000005 * (3 + c)))%R.
Proof.
  intros Hwf Hth Heps Hc.
  eexists _, _. split; [now apply simulator_f32_returns|].
  split; [reflexivity|]. intros k t Hk.
  assert (Hn : k < numel (shape_f32 theta)).
  { apply lookup_lt_Some in Hk. unfold wf_f32 in Hwf. lia. }
  pose proof (lookup_request g _ _ Hn) as He.
  destruct (proj1 (Forall_lookup _ _) Hth _ _ Hk) as [Ft Bt].
  destruct (proj1 (Forall_lookup _ _) Heps _ _ He) as [Ne Be].
  exists (f32_entry t (g [numel (shape_f32 theta)] k)). split.
  { cbn [data_f32]. rewrite lookup_zip_with, Hk. simpl. now rewrite He. }
  pose proof bpow_100_ge_4 as B4. pose proof bpow_100_le_120 as B120.
  assert (At : (Rabs (f32_real t) <= 2)%R) by (apply Rabs_le; lra).
  destruct (f32_entry_bound t _ Ft Ne) as [Fv Ev]; [lra|lra|].
  split; [exact Fv|].
  apply Rabs_le_inv in Ev.
  pose proof (Rabs_bounds (f32_real (g [numel (shape_f32 theta)] k))) as Re.
  assert (Hv : (Rabs (f32_real (f32_entry t (g [numel (shape_f32 theta)] k))
                      - (f32_real t + 1))
                <= 0.1 * c + 0.0000005 * (3 + c))%R)
    by (apply Rabs_le; lra).
  split; [exact Hv|]. apply Rabs_le_inv in Hv. lra.
Qed.

Lemma simulator_f32_within_noise_bound_witness :
  wf_f32 (triple f32_zero) /\
  Forall (fun t => f32_finite t = true /\ (-2 <= f32_real t <= 2)%R)
    (data_f32 (triple f32_zero)) /\
  Forall (fun e => f32_number e /\ (Rabs (f32_real e) <= 1)%R)
    (request (steady_f32 f32_one) (numel (shape_f32 (triple f32_zero)))) /\
  (1 <= bpow 100)%R /\
  exists x g',
    simulator_f32 (triple f32_zero) (steady_f32 f32_one) = Returned x g' /\
    shape_f32 x = shape_f32 (triple f32_zero) /\
    forall k t,
      data_f32 (triple f32_zero) !! k = Some t ->
      exists v,
        data_f32 x !! k = Some v /\
        f32_finite v = true /\
        (Rabs (f32_real v - (f32_real t + 1))
         <= 0.1 * 1 + 0.0000005 * (3 + 1))%R /\
        (-1 - (0.1 * 1 + 0.0000005 * (3 + 1)) <= f32_real v
         <= 3 + (0.1 * 1 + 0.0000005 * (3 + 1)))%R.
Proof.
  assert (H1 : wf_f32 (triple f32_zero)) by reflexivity.
  assert (H2 : Forall (fun t => f32_finite t = true /\
                                (-2 <= f32_real t <= 2)%R)
                 (data_f32 (triple f32_zero))).
  { assert (P : f32_finite f32_zero = true /\
                 (-2 <= f32_real f32_zero <= 2)%R) by (simpl; split; [reflexivity|lra]).
    change (data_f32 _) with [f32_zero; f32_zero; f32_zero].
    repeat (apply Forall_cons_2; [exact P|]). apply Forall_nil_2. }
  assert (H3 : Forall (fun e => f32_number e /\ (Rabs (f32_real e) <= 1)%R)
                 (request (steady_f32 f32_one)
                    (numel (shape_f32 (triple f32_zero))))).
  { destruct f32_real_examples as (_ & _ & _ & E1 & _).
    assert (P : f32_number f32_one /\ (Rabs (f32_real f32_one) <= 1)%R).
    { split; [split; reflexivity|]. rewrite E1, Rabs_pos_eq; lra. }
    change (request _ _) with [f32_one; f32_one; f32_one].
    repeat (apply Forall_cons_2; [exact P|]). apply Forall_nil_2. }
  assert (H4 : (1 <= bpow 100)%R) by (pose proof bpow_100_ge_4; lra).
  split; [exact H1|]. split; [exact H2|]. split; [exact H3|].
  split; [exact H4|].
  exact (simulator_f32_within_noise_bound (triple f32_zero)
           (steady_f32 f32_one) 1 H1 H2 H3 H4).
Defined.

(** ** The float32 simulator: a translated input *)

(** Entry by entry: the difference of the outputs at [t + d] and at [t]
    under one draw [e], and the difference of the output and [t]. *)
Lemma f32_entry_translation t d e :
  f32_finite t = true -> f32_finite d = true -> f32_number e ->
  (Rabs (f32_real t) <= bpow 100)%R -> (Rabs (f32_real d) <= bpow 100)%R ->
  (Rabs (f32_real e) <= bpow 100)%R ->
  f32_finite (f32_sub (f32_entry (f32_add t d) e) (f32_entry t e)) = true /\
  f32_finite (f32_sub (f32_entry t e) t) = true /\
  (Rabs (f32_real (f32_sub (f32_entry (f32_add t d) e) (f32_entry t e))
         - f32_real d)
   <= 0.000002 * (Rabs (f32_real t) + Rabs (f32_real d)
                  + Rabs (f32_real e) + 1))%R /\
  (Rabs (f32_real (f32_sub (f32_entry t e) t) - (1.0 + 0.1 * f32_real e))
   <= 0.000001 * (Rabs (f32_real t) + Rabs (f32_real e) + 1))%R.
Proof.
  intros Ft Fd Ne Bt Bd Be. unfold f32_sub.
  change (f32_add t d) with (SFadd 24 128 t d).
  pose proof (Rabs_bounds (f32_real t)) as Ht.
  pose proof (Rabs_bounds (f32_real d)) as Hd.
  pose proof (Rabs_bounds (f32_real e)) as He.
  pose proof bpow_100_ge_4 as B4.
  pose proof bpow_120 as B120. pose proof bpow_127 as B127.
  assert (Hten : (/ 10 ^ 40 <= 1 / 10000000000)%R).
  { apply Rle_trans with (/ 10 ^ 10)%R.
    - apply Rinv_le_contravar; [apply pow_lt; lra|].
      apply Rle_pow; [lra|lia].
    - simpl. lra. }
  (* theta + delta *)
  destruct (f32_add_correct t d Ft Fd) as [Fs Es].
  { apply Rabs_def1; lra. }
  apply (rounded_within _ _ (Rabs (f32_real t) + Rabs (f32_real d))) in Es;
    [|apply Rabs_le; lra].
  assert (Bs : (Rabs (f32_real (SFadd 24 128 t d))
                <= 1.001 * (Rabs (f32_real t) + Rabs (f32_real d))
                   + 1 / 10000000000)%R) by (apply Rabs_le; lra).
  (* the two outputs *)
  destruct (f32_entry_bound (SFadd 24 128 t d) e Fs Ne) as [Fx' Ex'];
    [lra|lra|].
  destruct (f32_entry_bound t e Ft Ne) as [Fx Ex]; [lra|lra|].
  apply Rabs_le_inv in Ex'. apply Rabs_le_inv in Ex.
  (* their difference *)
  destruct (f32_sub_correct _ _ Fx' Fx) as [Fv Ev].
  { apply Rabs_def1; lra. }
  apply (rounded_within _ _
           (1.1 * (Rabs (f32_real t) + Rabs (f32_real d)
                   + Rabs (f32_real e) + 1))) in Ev;
    [|apply Rabs_le; lra].
  (* the output less theta *)
  destruct (f32_sub_correct _ _ Fx Ft) as [Fw Ew].
  { apply Rabs_def1; lra. }
  apply (rounded_within _ _
           (1.1 * (Rabs (f32_real t) + Rabs (f32_real e) + 1))) in Ew;
    [|apply Rabs_le; lra].
  split; [exact Fv|]. split; [exact Fw|].
  split; apply Rabs_le; lra.
Qed.

(** With the draw 1 held fixed, moving theta = 0.5 by delta = 1 moves the
    output by 16777214 / 2^24 = 0.99999988..., not by 1; and the output
    less theta is 9227469 / 2^23 = 1.10000002... at theta = 0.5 but 0 at
    theta = 2^24. *)
Lemma simulator_f32_is_not_translation_equivariant :
  tensor_add_f32 (single f32_half) (single f32_one)
  = Some (single f32_three_halves)
  /\ simulator_f32 (single f32_three_halves) (steady_f32 f32_one)
     = Returned (single (S754_finite false 10905190 (-22)))
         (steady_f32 f32_one)
  /\ simulator_f32 (single f32_half) (steady_f32 f32_one)
     = Returned (single (S754_finite false 13421773 (-23)))
         (steady_f32 f32_one)
  /\ tensor_sub_f32 (single (S754_finite false 10905190 (-22)))
       (single (S754_finite false 13421773 (-23)))
     = Some (single (S754_finite false 16777214 (-24)))
  /\ f32_real (S754_finite false 16777214 (-24)) <> f32_real f32_one
  /\ tensor_sub_f32 (single (S754_finite false 13421773 (-23)))
       (single f32_half)
     = Some (single (S754_finite false 9227469 (-23)))
  /\ simulator_f32 (single f32_two_24) (steady_f32 f32_one)
     = Returned (single f32_two_24) (steady_f32 f32_one)
  /\ tensor_sub_f32 (single f32_two_24) (single f32_two_24)
     = Some (single f32_zero)
  /\ f32_real (S754_finite false 9227469 (-23)) <> f32_real f32_zero.
Proof.
  repeat (split; [vm_compute; reflexivity|]).
  split; [f32_values; lra|].
  repeat (split; [vm_compute; reflexivity|]).
  f32_values. lra.
Qed.

(** C10.  For float32 tensors theta and delta such that theta + delta has
    as many entries as theta, and any state of the generator, the same for
    both calls: simulator(theta + delta) - simulator(theta) has the shape
    of theta + delta, and simulator(theta) - theta that of theta.  At every
    entry where theta, delta (broadcast to the shape of the sum) and the
    draw eps are finite numbers of magnitude at most 2^100, the first
    difference is finite and within
    [0.000002 * (|theta| + |delta| + |eps| + 1)] of delta, and the second
    is finite and within [0.000001 * (|theta| + |eps| + 1)] of
    [1.0 + 0.1 * eps]. *)
Theorem simulator_f32_translation_equivariant theta delta theta' g :
  wf_f32 theta -> wf_f32 delta ->
  tensor_add_f32 theta delta = Some theta' ->
  numel (shape_f32 theta') = numel (shape_f32 theta) ->
  exists x' x g' D S,
    simulator_f32 theta' g = Returned x' g' /\
    simulator_f32 theta g = Returned x g' /\
    tensor_sub_f32 x' x = Some D /\
    tensor_sub_f32 x theta = Some S /\
    shape_f32 D = shape_f32 theta' /\
    shape_f32 S = shape_f32 theta /\
    forall k t d e,
      data_f32 theta !! k = Some t ->
      expand_to_f32 (shape_f32 theta') delta !! k = Some d ->
      request g (numel (shape_f32 theta)) !! k = Some e ->
      f32_finite t = true -> f32_finite d = true -> f32_number e ->
      (Rabs (f32_real t) <= bpow 100)%R ->
      (Rabs (f32_real d) <= bpow 100)%R ->
      (Rabs (f32_real e) <= bpow 100)%R ->
      exists v w,
        data_f32 D !! k = Some v /\ data_f32 S !! k = Some w /\
        f32_finite v = true /\ f32_finite w = true /\
        (Rabs (f32_real v - f32_real d)
         <= 0.000002 * (Rabs (f32_real t) + Rabs (f32_real d)
                        + Rabs (f32_real e) + 1))%R /\
        (Rabs (f32_real w - (1.0 + 0.1 * f32_real e))
         <= 0.000001 * (Rabs (f32_real t) + Rabs (f32_real e) + 1))%R.
Proof.
  intros Hwf Hwd Hadd Hn.
  unfold tensor_add_f32, pointwise_f32 in Hadd.
  destruct (broadcast_shapes (shape_f32 theta) (shape_f32 delta))
    as [s|] eqn:Hs; [|discriminate].
  injection Hadd as <-. cbn [shape_f32] in *.
  destruct (broadcast_shapes_into _ _ _ Hs Hn) as (Hb & Hex & Hid).
  assert (Et : expand_to_f32 s theta = data_f32 theta)
    by (apply Hid, Hwf).
  rewrite Et.
  assert (Ld : length (expand_to_f32 s delta) = numel s).
  { apply length_expand; [exact Hex|]. now rewrite numel_pad. }
  set (dl := expand_to_f32 s delta) in *.
  set (n := numel (shape_f32 theta)) in *.
  set (th' := TensorF32 s (zip_with f32_add (data_f32 theta) dl)).
  assert (Hw' : wf_f32 th').
  { unfold wf_f32, th'. cbn [data_f32 shape_f32].
    rewrite length_zip_with. unfold wf_f32 in Hwf. fold n in Hwf. lia. }
  set (x' := TensorF32 s (zip_with f32_entry (data_f32 th') (request g n))).
  set (x := TensorF32 (shape_f32 theta)
              (zip_with f32_entry (data_f32 theta) (request g n))).
  assert (Wx' : wf_f32 x').
  { unfold wf_f32, x', th'. cbn [data_f32 shape_f32].
    rewrite !length_zip_with, length_request.
    unfold wf_f32 in Hwf. fold n in Hwf. lia. }
  assert (Wx : wf_f32 x) by apply (simulator_f32_wf theta Hwf g).
  exists x', x, (after_request g n),
    (TensorF32 s (zip_with f32_sub (data_f32 x') (data_f32 x))),
    (TensorF32 (shape_f32 theta)
       (zip_with f32_sub (data_f32 x) (data_f32 theta))).
  split.
  { rewrite (simulator_f32_returns th' g Hw'). unfold x'.
    change (shape_f32 th') with s. rewrite Hn. reflexivity. }
  split; [exact (simulator_f32_returns theta g Hwf)|].
  split.
  { apply (pointwise_f32_onto f32_sub x' x Wx' Wx); [exact Hb|].
    unfold x, x'. cbn [shape_f32]. now symmetry. }
  split.
  { apply (pointwise_f32_same_shape f32_sub x theta Wx Hwf). reflexivity. }
  split; [reflexivity|]. split; [reflexivity|].
  intros k t d e Hk Hd He Ft Fd Ne Bt Bd Be.
  exists (f32_sub (f32_entry (f32_add t d) e) (f32_entry t e)),
    (f32_sub (f32_entry t e) t).
  split.
  { unfold x, x', th'. cbn [data_f32].
    rewrite !lookup_zip_with, Hk, Hd, He. reflexivity. }
  split.
  { unfold x. cbn [data_f32]. rewrite !lookup_zip_with, Hk, He.
    reflexivity. }
  destruct (f32_entry_translation t d e Ft Fd Ne Bt Bd Be)
    as (F1 & F2 & E1 & E2).
  repeat split; assumption.
Qed.

Lemma simulator_f32_translation_equivariant_witness :
  wf_f32 (triple f32_half) /\ wf_f32 (single f32_one) /\
  tensor_add_f32 (triple f32_half) (single f32_one)
  = Some (triple f32_three_halves) /\
  numel (shape_f32 (triple f32_three_halves))
  = numel (shape_f32 (triple f32_half)) /\
  exists x' x g' D S,
    simulator_f32 (triple f32_three_halves) (steady_f32 f32_one)
    = Returned x' g' /\
    simulator_f32 (triple f32_half) (steady_f32 f32_one) = Returned x g' /\
    tensor_sub_f32 x' x = Some D /\
    tensor_sub_f32 x (triple f32_half) = Some S /\
    shape_f32 D = [1; 3] /\
    shape_f32 S = [1; 3] /\
    exists v w,
      data_f32 D !! 2 = Some v /\ data_f32 S !! 2 = Some w /\
      f32_finite v = true /\ f32_finite w = true /\
      (Rabs (f32_real v - 1) <= 0.000002 * (0.5 + 1 + 1 + 1))%R /\
      (Rabs (f32_real w - (1.0 + 0.1 * 1)) <= 0.000001 * (0.5 + 1 + 1))%R.
Proof.
  split; [reflexivity|]. split; [reflexivity|].
  split; [vm_compute; reflexivity|]. split; [reflexivity|].
  destruct (simulator_f32_translation_equivariant (triple f32_half)
              (single f32_one) (triple f32_three_halves) (steady_f32 f32_one))
    as (x' & x & g' & D & S & H1 & H2 & H3 & H4 & H5 & H6 & H7);
    [reflexivity | reflexivity | vm_compute; reflexivity | reflexivity |].
  exists x', x, g', D, S.
  split; [exact H1|]. split; [exact H2|]. split; [exact H3|].
  split; [exact H4|]. split; [exact H5|]. split; [exact H6|].
  destruct f32_real_examples as (_ & _ & Eh & E1 & _).
  pose proof bpow_100_ge_4 as B.
  assert (Ah : Rabs (f32_real f32_half) = 0.5%R)
    by (rewrite Eh; apply Rabs_pos_eq; lra).
  assert (A1 : Rabs (f32_real f32_one) = 1%R)
    by (rewrite E1; apply Rabs_pos_eq; lra).
  destruct (H7 2 f32_half f32_one f32_one) as (v & w & V1 & V2 & V3 & V4 & V5 & V6);
    try reflexivity.
  - split; reflexivity.
  - rewrite Ah. lra.
  - rewrite A1. lra.
  - rewrite A1. lra.
  - exists v, w. rewrite Ah, A1, E1 in V5. rewrite Ah, A1, E1 in V6.
    repeat split; assumption.
Defined.
